(** * Watcher: a periodic CPU and memory sampler

    A shallow embedding of [watcher.py].  The script opens a CSV log in
    append mode, writes a header when the log is new or empty, and then
    loops: sample CPU and memory through [psutil], append one row, sleep
    five seconds.  Ctrl+C stops it.

    The embedding keeps the shape of the script.  Python values are a
    small sum type, exceptions are a three-way class split that mirrors
    what the [except] clauses of the script can tell apart, and every
    function of the script is a computation in a state-and-exception
    monad over a [world] that holds the log file, the open handle with
    its write buffer, and the trace of calls the script made.

    Everything outside the script is an input.  What [psutil], the
    clock, [time.sleep], standard output and the buffered file object
    do at each call, an interrupt arriving there included, is given by
    a [tick_env] per loop iteration and a [run_env] per process.  The
    file object is the one [open] returns with default buffering: rows
    wait in its buffer, a write that finds the buffer full or a [close]
    writes pending rows out oldest first, and a flush that fails can
    leave a row cut short on the file and drops what it did not
    write. *)

From Stdlib Require Import List String Ascii Bool ZArith Lia.
From Stdlib Require Import Sorting.Sorted.
From Stdlib Require Import Floats.PrimFloat.
Import ListNotations.

Local Open Scope string_scope.
Local Open Scope list_scope.

Set Implicit Arguments.

(** ** Python values and exceptions *)

(** The values the script handles: [None], the floats [psutil] returns,
    the integer constant of the configuration, and strings.  [VCut v]
    is found on the file only: what is left of the text of [v] when a
    write stopped inside it. *)
Inductive value : Type :=
| VNone
| VFloat (x : float)
| VInt (z : Z)
| VStr (s : string)
| VCut (v : value).

(** A CSV row is the list handed to [csv.writer.writerow]. *)
Definition row : Type := list value.

(** A printed line is kept as the pieces of its f-string, in order;
    [str] of a float is left to Python. *)
Definition line : Type := list value.

(** The part of the [BaseException] hierarchy the [except] clauses of
    the script distinguish.  [Exception msg] stands for every subclass
    of [Exception] ([OSError], [psutil.Error], ...), [msg] being
    [str(e)]. *)
Inductive exn : Type :=
| KeyboardInterrupt
| SystemExit (code : Z)
| Exception (msg : string).

(** What a call into the environment does. *)
Inductive answer (A : Type) : Type :=
| Ok (a : A)
| Fail (e : exn).
Arguments Fail {A} e.

(** What [csv_writer.writerow] does with a row.
    - [Buffered]: the row joins the buffer.
    - [Spilled n]: the buffer was full; its [n] oldest rows are written
      to the file, and the new row joins what is left of the buffer.
    - [FlushFailed e n torn]: the buffer was full and writing it out
      failed with [e], after [n] whole rows and, when [torn] is
      [Some k], the first bytes of the next one, cut in its field [k];
      the rest of the buffer is dropped and the new row is not taken.
    - [Stopped e kept]: [e] is raised at the call with no flush under
      way, an interrupt for one; [kept] tells whether the row had
      already joined the buffer. *)
Inductive write_answer : Type :=
| Buffered
| Spilled (n : nat)
| FlushFailed (e : exn) (n : nat) (torn : option nat)
| Stopped (e : exn) (kept : bool).

(** What [open] does: it returns a handle, or raises [e], having
    created the file or not. *)
Inductive open_answer : Type :=
| Opens
| OpenFails (e : exn) (created : bool).

(** What [close] does: it writes the buffer out, or fails with [e]
    after [n] whole rows and maybe a part of the next one.  The handle
    is closed either way. *)
Inductive close_answer : Type :=
| Closes
| CloseFails (e : exn) (n : nat) (torn : option nat).

(** How a computation of the script ends.  [Running] marks the end of
    the observed environment while the [while True] loop is still
    going: no handler and no [finally] runs on it. *)
Inductive outcome (A : Type) : Type :=
| Returns (a : A)
| Raises (e : exn)
| Running.
Arguments Raises {A} e.
Arguments Running {A}.

(** ** The world *)

(** What the script does that can be seen from outside.  A line is
    recorded when it has been printed; the other events record a call
    when it is made, whether it then returns or raises. *)
Inductive event : Type :=
| Printed (l : line)
| CpuPercent (interval : Z)
| VirtualMemory
| Slept (seconds : Z)
| Opened (path : string)
| Closed.

(** [disk] is the content of the log file, as the rows written to it in
    the order they were written, the last one of a failed flush maybe
    cut short (what is written next then starts where that row stops);
    [None] when no regular file is at the path.  [handle] is
    the write buffer of the open file object, [None] when no handle is
    open.  [trace] lists the events so far, oldest first. *)
Record world : Type := mkWorld {
  disk : option (list row);
  handle : option (list row);
  trace : list event
}.

Definition rows_of (d : option (list row)) : list row :=
  match d with
  | Some rows => rows
  | None => []
  end.

Definition on_disk (w : world) : list row := rows_of (disk w).

Definition buffered (w : world) : list row :=
  match handle w with
  | Some rows => rows
  | None => []
  end.

(** Every row the file object has accepted and not lost. *)
Definition persisted (w : world) : list row := on_disk w ++ buffered w.

(** The world a process starts in, on log file [d]: no handle, nothing
    done yet. *)
Definition start (d : option (list row)) : world := mkWorld d None [].

(** [os.path.isfile] on [d]. *)
Definition is_file (d : option (list row)) : bool :=
  match d with
  | Some _ => true
  | None => false
  end.

(** The world right after [open] succeeded on [d]. *)
Definition opened (d : option (list row)) (tr : list event) : world :=
  mkWorld (Some (rows_of d)) (Some []) tr.

(** The world with more events. *)
Definition log (w : world) (evs : list event) : world :=
  mkWorld (disk w) (handle w) (trace w ++ evs).

(** ** The buffered file *)

(** A row cut in its field [k] (in its last field when it has no field
    [k]): the fields before it, then what was written of that one. *)
Definition cut (k : nat) (r : row) : row :=
  let k' := Nat.min k (List.length r - 1) in
  firstn k' r ++
  match nth_error r k' with
  | Some v => [VCut v]
  | None => []
  end.

(** What a flush that fails puts on the file: [n] whole rows of the
    buffer, oldest first, then maybe a part of the next one. *)
Definition flush (n : nat) (torn : option nat) (buf : list row) : list row :=
  firstn n buf ++
  match torn, nth_error buf n with
  | Some k, Some r => [cut k r]
  | _, _ => []
  end.

(** ** The monad *)

Definition M (A : Type) : Type := world -> world * outcome A.

Definition ret {A} (a : A) : M A := fun w => (w, Returns a).

Definition raise {A} (e : exn) : M A := fun w => (w, Raises e).

Definition bind {A B} (m : M A) (k : A -> M B) : M B :=
  fun w =>
    match m w with
    | (w', Returns a) => k a w'
    | (w', Raises e) => (w', Raises e)
    | (w', Running) => (w', Running)
    end.

Declare Scope py_scope.
Delimit Scope py_scope with py.
Notation "x <- m ;; k" := (bind m (fun x => k))
  (at level 61, m at next level, right associativity) : py_scope.
Notation "m ;; k" := (bind m (fun _ => k))
  (at level 61, right associativity) : py_scope.
Local Open Scope py_scope.

(** [try: body / except Exception as e: handler(str(e))] *)
Definition try_except_Exception {A} (body : M A) (handler : string -> M A) : M A :=
  fun w =>
    match body w with
    | (w', Raises (Exception msg)) => handler msg w'
    | r => r
    end.

(** [try: body / except ...:] with the clauses given as a partial map. *)
Definition try_except {A} (body : M A) (handlers : exn -> option (M A)) : M A :=
  fun w =>
    match body w with
    | (w', Raises e) =>
        match handlers e with
        | Some h => h w'
        | None => (w', Raises e)
        end
    | r => r
    end.

(** [try: body / finally: fin].  An exception of [fin] replaces the
    result of [body]. *)
Definition try_finally {A} (body : M A) (fin : M unit) : M A :=
  fun w =>
    match body w with
    | (w', Running) => (w', Running)
    | (w', r) =>
        match fin w' with
        | (w'', Returns _) => (w'', r)
        | (w'', Raises e) => (w'', Raises e)
        | (w'', Running) => (w'', Running)
        end
    end.

(** ** Calls into the environment *)

Definition emit (ev : event) : M unit :=
  fun w => (log w [ev], Returns tt).

Definition reply {A} (a : answer A) : M A :=
  match a with
  | Ok x => ret x
  | Fail e => raise e
  end.

(** [print(l)]: the line goes out, or the call raises (standard output
    closed, an interrupt) and nothing is printed. *)
Definition print (a : answer unit) (l : line) : M unit :=
  match a with
  | Ok _ => emit (Printed l)
  | Fail e => raise e
  end.

Definition psutil_cpu_percent (interval : Z) (a : answer float) : M float :=
  emit (CpuPercent interval) ;; reply a.

(** [psutil.virtual_memory().percent] *)
Definition psutil_virtual_memory_percent (a : answer float) : M float :=
  emit VirtualMemory ;; reply a.

Definition time_sleep (seconds : Z) (a : answer unit) : M unit :=
  emit (Slept seconds) ;; reply a.

Definition os_path_isfile : M bool :=
  fun w => (w, Returns (is_file (disk w))).

(** [os.path.getsize(path) == 0].  Every row on the file, whole or cut
    short, takes at least one byte, so the size is zero exactly when
    there is no row. *)
Definition os_path_getsize_is_0 : M bool :=
  fun w =>
    match disk w with
    | Some [] => (w, Returns true)
    | Some (_ :: _) => (w, Returns false)
    | None => (w, Raises (Exception "No such file or directory"))
    end.

(** [open(path, mode='a')]: creates the file when absent, never touches
    what it holds, and starts with an empty buffer. *)
Definition open_append (path : string) (a : open_answer) : M unit :=
  emit (Opened path) ;;
  fun w =>
    match a with
    | Opens => (mkWorld (Some (on_disk w)) (Some []) (trace w), Returns tt)
    | OpenFails e created =>
        (mkWorld (if created then Some (on_disk w) else disk w) (handle w)
           (trace w),
         Raises e)
    end.

(** [csvfile.close()], run by the [with] statement. *)
Definition close (a : close_answer) : M unit :=
  emit Closed ;;
  fun w =>
    match a with
    | Closes =>
        (mkWorld (Some (on_disk w ++ buffered w)) None (trace w), Returns tt)
    | CloseFails e n torn =>
        (mkWorld (Some (on_disk w ++ flush n torn (buffered w))) None (trace w),
         Raises e)
    end.

(** [with open(path, mode='a', ...) as csvfile: body] *)
Definition with_open {A} (path : string) (o : open_answer) (c : close_answer)
    (body : M A) : M A :=
  open_append path o ;; try_finally body (close c).

(** [csv_writer.writerow(r)] *)
Definition writerow (a : write_answer) (r : row) : M unit :=
  fun w =>
    match handle w with
    | None => (w, Raises (Exception "I/O operation on closed file."))
    | Some buf =>
        match a with
        | Buffered =>
            (mkWorld (disk w) (Some (buf ++ [r])) (trace w), Returns tt)
        | Spilled n =>
            (mkWorld (Some (on_disk w ++ firstn n buf))
               (Some (skipn n buf ++ [r])) (trace w),
             Returns tt)
        | FlushFailed e n torn =>
            (mkWorld (Some (on_disk w ++ flush n torn buf)) (Some []) (trace w),
             Raises e)
        | Stopped e kept =>
            (mkWorld (disk w) (Some (if kept then buf ++ [r] else buf)) (trace w),
             Raises e)
        end
    end.

(** ** The clock *)

(** A naive local [datetime], to the second, as [datetime.now()]
    returns it. *)
Record datetime : Type := mkDatetime {
  year : Z; month : Z; day : Z;
  hour : Z; minute : Z; second : Z
}.

Definition digit (n : Z) : ascii := ascii_of_N (Z.to_N (48 + n mod 10)).

Definition pad2 (n : Z) : string :=
  String (digit (n / 10)) (String (digit n) EmptyString).

Definition pad4 (n : Z) : string :=
  String.append (pad2 (n / 100)) (pad2 (n mod 100)).

(** [strftime('%Y-%m-%d %H:%M:%S')] *)
Definition strftime (d : datetime) : string :=
  String.append (pad4 (year d))
    (String "-" (String.append (pad2 (month d))
      (String "-" (String.append (pad2 (day d))
        (String " " (String.append (pad2 (hour d))
          (String ":" (String.append (pad2 (minute d))
            (String ":" (pad2 (second d))))))))))).

(** The fields [datetime.now()] can return; the year is kept to four
    digits, where [%Y] has one rendering. *)
Definition on_calendar (d : datetime) : bool :=
  (1000 <=? year d)%Z && (year d <=? 9999)%Z &&
  (1 <=? month d)%Z && (month d <=? 12)%Z &&
  (1 <=? day d)%Z && (day d <=? 31)%Z &&
  (0 <=? hour d)%Z && (hour d <=? 23)%Z &&
  (0 <=? minute d)%Z && (minute d <=? 59)%Z &&
  (0 <=? second d)%Z && (second d <=? 59)%Z.

Definition lex (c1 c2 : comparison) : comparison :=
  match c1 with
  | Eq => c2
  | _ => c1
  end.

(** The order of naive datetimes: field by field, year first. *)
Definition dt_compare (a b : datetime) : comparison :=
  lex (year a ?= year b)%Z
    (lex (month a ?= month b)%Z
      (lex (day a ?= day b)%Z
        (lex (hour a ?= hour b)%Z
          (lex (minute a ?= minute b)%Z (second a ?= second b)%Z)))).

Definition dt_le (a b : datetime) : Prop := dt_compare a b <> Gt.

(** The order of timestamps as the strings the log holds. *)
Definition str_le (s t : string) : Prop := String.leb s t = true.

(** ** The environment of a tick and of a run *)

(** One answer for each call a tick can make, named after the call:
    the two queries and the [print] of [get_system_stats], the clock
    reading, the write and the two [print]s of [write_log_entry], and in
    [main] the [print] of the failure notice and the sleep. *)
Record tick_env : Type := mkTick {
  cpu_percent_ans : answer float;
  virtual_memory_ans : answer float;
  stats_print_ans : answer unit;
  now : datetime;
  writerow_ans : write_answer;
  logged_print_ans : answer unit;
  write_error_print_ans : answer unit;
  failed_print_ans : answer unit;
  sleep_ans : answer unit
}.

(** One answer for each call [main] makes outside the loop: its two
    opening lines, [open], the write of the header and the line after
    it, [close], the line of whichever [except] clause runs, and the
    closing line. *)
Record run_env : Type := mkRun {
  banner_ans : answer unit;
  press_ans : answer unit;
  open_ans : open_answer;
  header_ans : write_answer;
  header_print_ans : answer unit;
  ticks : list tick_env;
  close_ans : close_answer;
  notice_ans : answer unit;
  exit_ans : answer unit
}.

(** ** The script *)

Definition LOG_INTERVAL_SECONDS : Z := 5.
Definition LOG_FILE_NAME : string := "system_performance_log.csv".
Definition CSV_HEADER : row :=
  [VStr "Timestamp"; VStr "CPU Usage (%)"; VStr "Memory Usage (%)"].

Definition get_system_stats (env : tick_env) : M (value * value) :=
  try_except_Exception
    (cpu_usage <- psutil_cpu_percent 1 (cpu_percent_ans env) ;;
     memory_usage <- psutil_virtual_memory_percent (virtual_memory_ans env) ;;
     ret (VFloat cpu_usage, VFloat memory_usage))
    (fun e =>
       print (stats_print_ans env)
         [VStr "Error getting system stats: "; VStr e] ;;
       ret (VNone, VNone)).

Definition write_log_entry (env : tick_env) (cpu_usage memory_usage : value) : M unit :=
  let timestamp := strftime (now env) in
  try_except_Exception
    (writerow (writerow_ans env) [VStr timestamp; cpu_usage; memory_usage] ;;
     print (logged_print_ans env)
       [VStr timestamp; VStr " - CPU: "; cpu_usage; VStr "%, Memory: ";
        memory_usage; VStr "% - Logged."])
    (fun e =>
       print (write_error_print_ans env)
         [VStr "Error writing to log file: "; VStr e]).

Definition is_not_None (v : value) : bool :=
  match v with
  | VNone => false
  | _ => true
  end.

(** The body of the [while True] loop of [main]. *)
Definition tick (env : tick_env) : M unit :=
  stats <- get_system_stats env ;;
  (let (cpu_usage, memory_usage) := stats in
   if is_not_None cpu_usage && is_not_None memory_usage
   then write_log_entry env cpu_usage memory_usage
   else print (failed_print_ans env)
          [VStr (strftime (now env)); VStr " - Failed to retrieve stats."]) ;;
  time_sleep LOG_INTERVAL_SECONDS (sleep_ans env).

(** [while True: ...] over the ticks the environment describes. *)
Fixpoint loop (envs : list tick_env) : M unit :=
  match envs with
  | [] => fun w => (w, Running)
  | env :: rest => tick env ;; loop rest
  end.

Definition newline : string := String (ascii_of_nat 10) EmptyString.

(** The line [main] prints for the exception it caught. *)
Definition stop_notice (e : exn) : line :=
  match e with
  | KeyboardInterrupt => [VStr (String.append newline "Monitoring stopped by user.")]
  | Exception msg => [VStr "An unexpected error occurred: "; VStr msg]
  | SystemExit _ => []
  end.

(** The two [except] clauses of [main]. *)
Definition main_handlers (env : run_env) (e : exn) : option (M unit) :=
  match e with
  | KeyboardInterrupt => Some (print (notice_ans env) (stop_notice e))
  | Exception _ => Some (print (notice_ans env) (stop_notice e))
  | SystemExit _ => None
  end.

(** The block under [with open(...) as csvfile:]: the header when the
    file is new or empty, then the loop. *)
Definition session (env : run_env) (file_exists : bool) : M unit :=
  new_or_empty <- (if negb file_exists then ret true
                   else os_path_getsize_is_0) ;;
  (if new_or_empty : bool
   then writerow (header_ans env) CSV_HEADER ;;
        print (header_print_ans env) [VStr "CSV header written."]
   else ret tt) ;;
  loop (ticks env).

Definition main (env : run_env) : M unit :=
  print (banner_ans env)
    [VStr "Starting system performance monitoring. Logging to '";
     VStr LOG_FILE_NAME; VStr "' every "; VInt LOG_INTERVAL_SECONDS;
     VStr " seconds."] ;;
  print (press_ans env) [VStr "Press Ctrl+C to stop."] ;;
  file_exists <- os_path_isfile ;;
  try_finally
    (try_except
       (with_open LOG_FILE_NAME (open_ans env) (close_ans env)
          (session env file_exists))
       (main_handlers env))
    (print (exit_ans env) [VStr "Exiting script."]).


(** ** Restarts *)

(** The log file as a process started on [d] leaves it.  A run whose
    environment ends while the loop is [Running] stands for a process
    killed at that point: its buffer never reaches the file. *)
Definition store_after (env : run_env) (d : option (list row)) : option (list row) :=
  disk (fst (main env (start d))).

Definition restarts (runs : list run_env) (d : option (list row)) : option (list row) :=
  fold_left (fun d env => store_after env d) runs d.


(** ** Exception classes *)

(** [isinstance(e, Exception)] *)
Definition is_Exception (e : exn) : bool :=
  match e with
  | Exception _ => true
  | KeyboardInterrupt | SystemExit _ => false
  end.

(** An answer that is a value or an error of class [Exception]. *)
Definition value_or_error {A} (a : answer A) : bool :=
  match a with
  | Ok _ => true
  | Fail e => is_Exception e
  end.

(** Whether a call returned. *)
Definition returned {A} (a : answer A) : bool :=
  match a with
  | Ok _ => true
  | Fail _ => false
  end.

(** What [main] catches: its two [except] clauses. *)
Definition caught (e : exn) : bool :=
  match e with
  | KeyboardInterrupt | Exception _ => true
  | SystemExit _ => false
  end.


(** A write with no flush that fails. *)
Definition no_flush_failure (a : write_answer) : bool :=
  match a with
  | FlushFailed _ _ _ => false
  | _ => true
  end.


(** ** What a tick and a run do, read off their environment

    Readings of the environment, taken from the code itself run on a
    blank world where they can be, and proved below to be what the code
    does on every world. *)

(** An open handle on an empty file, nothing done yet. *)
Definition blank : world := opened None [].

(** How [time.sleep] ends. *)
Definition sleep_outcome (env : tick_env) : outcome unit :=
  match sleep_ans env with
  | Ok _ => Returns tt
  | Fail e => Raises e
  end.

(** How the loop body ends, and the events it adds, while the handle is
    open. *)
Definition tick_outcome (env : tick_env) : outcome unit := snd (tick env blank).

Definition tick_events (env : tick_env) : list event := trace (fst (tick env blank)).

(** Whether the file object takes the row. *)
Definition accepts (a : write_answer) : bool :=
  match a with
  | Buffered | Spilled _ => true
  | FlushFailed _ _ _ => false
  | Stopped _ kept => kept
  end.

(** The row a tick hands to the writer, if it gets that far. *)
Definition tick_row (env : tick_env) : option row :=
  match cpu_percent_ans env, virtual_memory_ans env with
  | Ok c, Ok m => Some [VStr (strftime (now env)); VFloat c; VFloat m]
  | _, _ => None
  end.

(** The row of a tick the file object takes, if any. *)
Definition tick_rows (env : tick_env) : list row :=
  match tick_row env with
  | Some r => if accepts (writerow_ans env) then [r] else []
  | None => []
  end.

(** What a tick does to the file and the buffer. *)
Definition tick_file (env : tick_env) (w : world) : world :=
  match tick_row env with
  | Some r => fst (writerow (writerow_ans env) r w)
  | None => w
  end.

(** How the loop ends: with the first tick that raises. *)
Fixpoint loop_outcome (envs : list tick_env) : outcome unit :=
  match envs with
  | [] => Running
  | env :: rest =>
      match tick_outcome env with
      | Returns _ => loop_outcome rest
      | o => o
      end
  end.

(** The rows the file object takes from the loop, in order, up to the
    tick that stops it. *)
Fixpoint accepted (envs : list tick_env) : list row :=
  match envs with
  | [] => []
  | env :: rest =>
      tick_rows env ++
      match tick_outcome env with
      | Returns _ => accepted rest
      | _ => []
      end
  end.

(** The events of the loop, up to the tick that stops it. *)
Fixpoint loop_events (envs : list tick_env) : list event :=
  match envs with
  | [] => []
  | env :: rest =>
      tick_events env ++
      match tick_outcome env with
      | Returns _ => loop_events rest
      | _ => []
      end
  end.

(** A log file the script takes for new: absent, or of size zero. *)
Definition fresh (d : option (list row)) : bool :=
  match d with
  | None | Some [] => true
  | Some (_ :: _) => false
  end.

(** Whether the header step of a new file is got through: the write
    returns and so does the [print] after it. *)
Definition header_returns (env : run_env) : bool :=
  match header_ans env, header_print_ans env with
  | (Buffered | Spilled _), Ok _ => true
  | _, _ => false
  end.

(** The rows the file object takes in a whole session started on [d]. *)
Definition session_rows (env : run_env) (d : option (list row)) : list row :=
  if fresh d
  then (if accepts (header_ans env) then [CSV_HEADER] else [])
       ++ (if header_returns env then accepted (ticks env) else [])
  else accepted (ticks env).

(** The header step of a new file: the write, then the line. *)
Definition header_step (env : run_env) : M unit :=
  writerow (header_ans env) CSV_HEADER ;;
  print (header_print_ans env) [VStr "CSV header written."].

Definition header_outcome (env : run_env) : outcome unit :=
  snd (header_step env blank).

Definition header_events (env : run_env) : list event :=
  trace (fst (header_step env blank)).

(** How the session ends. *)
Definition session_outcome (env : run_env) (d : option (list row)) : outcome unit :=
  if fresh d
  then match header_outcome env with
       | Returns _ => loop_outcome (ticks env)
       | o => o
       end
  else loop_outcome (ticks env).

(** The events of the session. *)
Definition session_events (env : run_env) (d : option (list row)) : list event :=
  if fresh d
  then header_events env
       ++ match header_outcome env with
          | Returns _ => loop_events (ticks env)
          | _ => []
          end
  else loop_events (ticks env).

(** Whether [main] gets to the block under [with]: its two opening
    lines are printed and [open] returns. *)
Definition reaches_session (env : run_env) : bool :=
  returned (banner_ans env) && returned (press_ans env)
  && match open_ans env with Opens => true | OpenFails _ _ => false end.

(** How [close] ends, after a body that ended with [o]. *)
Definition close_outcome (c : close_answer) (o : outcome unit) : outcome unit :=
  match c with
  | Closes => o
  | CloseFails e _ _ => Raises e
  end.

(** The [except] clauses and the [finally] of [main], applied to a body
    that ended in world [w] with outcome [o]. *)
Definition handled (env : run_env) (w : world) (o : outcome unit) : world * outcome unit :=
  try_finally
    (try_except (fun _ => (w, o)) (main_handlers env))
    (print (exit_ans env) [VStr "Exiting script."]) w.

(** What [main] does before the session: two lines and the [open]. *)
Definition banner : list event :=
  [Printed [VStr "Starting system performance monitoring. Logging to '";
            VStr LOG_FILE_NAME; VStr "' every "; VInt LOG_INTERVAL_SECONDS;
            VStr " seconds."];
   Printed [VStr "Press Ctrl+C to stop."];
   Opened LOG_FILE_NAME].

(** ** What becomes of the rows handed to the file *)

(** [kept_of rows found]: [found] is [rows] in the same order, each row
    whole, cut short, or missing. *)
Inductive kept_of : list row -> list row -> Prop :=
| kept_nil : kept_of [] []
| kept_whole (r : row) (rows found : list row) :
    kept_of rows found -> kept_of (r :: rows) (r :: found)
| kept_cut (k : nat) (r : row) (rows found : list row) :
    kept_of rows found -> kept_of (r :: rows) (cut k r :: found)
| kept_lost (r : row) (rows found : list row) :
    kept_of rows found -> kept_of (r :: rows) found.

(** Where the rows [acc] taken by the file object since the file held
    [base] are: the last ones in the buffer, and of the ones before,
    what reached the file. *)
Definition settled (base acc : list row) (w : world) : Prop :=
  exists done landed,
    acc = done ++ buffered w /\
    disk w = Some (base ++ landed) /\
    kept_of done landed.

(** ** Timestamps of rows *)

(** The first field of a data row. *)
Definition timestamp (r : row) : string :=
  match r with
  | VStr ts :: _ => ts
  | _ => EmptyString
  end.

(** The elements of a list a mask keeps, in their order. *)
Fixpoint pick {A : Type} (mask : list bool) (l : list A) : list A :=
  match mask, l with
  | b :: mask', x :: l' => if b then x :: pick mask' l' else pick mask' l'
  | _, _ => []
  end.

(** Used to check the two-digit fields by computation. *)
Definition same_comparison (c1 c2 : comparison) : bool :=
  match c1, c2 with
  | Eq, Eq | Lt, Lt | Gt, Gt => true
  | _, _ => false
  end.

Definition two_digits : list Z := map Z.of_nat (seq 0 100).

(** ** The provider contract *)

(** [0.0 <= x <= 100.0]; false on NaN. *)
Definition in_range (x : float) : bool :=
  PrimFloat.leb 0 x && PrimFloat.leb x 100.

(** Every successful sample is a pair of floats in [0, 100]. *)
Definition provider_contract (env : tick_env) : bool :=
  match cpu_percent_ans env, virtual_memory_ans env with
  | Ok c, Ok m => in_range c && in_range m
  | _, _ => true
  end.

(** Every float of the row is in range. *)
Definition row_in_range (r : row) : Prop :=
  forall x, In (VFloat x) r -> in_range x = true.

(** ** Rows of the log *)

(** A data row: a timestamp and two floats. *)
Definition is_data_row (r : row) : Prop :=
  exists ts c m, r = [VStr ts; VFloat c; VFloat m].

(** Whether a row is [CSV_HEADER]. *)
Definition is_header (r : row) : bool :=
  match r with
  | [VStr a; VStr b; VStr c] =>
      String.eqb a "Timestamp" && String.eqb b "CPU Usage (%)"
      && String.eqb c "Memory Usage (%)"
  | _ => false
  end.

(** How many header rows a file holds. *)
Definition headers (rows : list row) : nat := List.length (filter is_header rows).

(** A file in the shape the script keeps: the header, then data rows. *)
Definition header_then_data (d : option (list row)) : Prop :=
  exists data, d = Some (CSV_HEADER :: data) /\ Forall is_data_row data.

(** A file the script can have left: absent, empty, or the header and
    then data rows. *)
Definition kept (d : option (list row)) : Prop :=
  fresh d = true \/ header_then_data d.

(** No header anywhere but at the start of the file. *)
Definition header_first_only (rows : list row) : Prop := headers (tl rows) = 0.

(** A row the script writes, whole or cut short by a failed flush. *)
Definition whole_or_cut (P : row -> Prop) (r : row) : Prop :=
  P r \/ exists k r0, P r0 /\ r = cut k r0.

(** The run reached its file and got its rows to it: the two opening
    lines were printed, [open] and [close] succeeded, no write found a
    flush failing, and the loop was stopped (the process was not killed
    while running). *)
Definition io_ok (env : run_env) : bool :=
  returned (banner_ans env) && returned (press_ans env)
  && match open_ans env with Opens => true | OpenFails _ _ => false end
  && match header_ans env with Buffered | Spilled _ => true | _ => false end
  && forallb (fun t => no_flush_failure (writerow_ans t)) (ticks env)
  && match close_ans env with Closes => true | CloseFails _ _ _ => false end
  && match loop_outcome (ticks env) with Running => false | _ => true end.

(** ** Runs and ticks without a given kind of failure *)

(** A run in which no flush of the write buffer fails: what the file
    object took reaches the file, or is still in the buffer. *)
Definition lossless (env : run_env) : bool :=
  no_flush_failure (header_ans env)
  && forallb (fun t => no_flush_failure (writerow_ans t)) (ticks env)
  && match close_ans env with Closes => true | CloseFails _ _ _ => false end.

(** A write that returns or raises an error of class [Exception]. *)
Definition write_or_error (a : write_answer) : bool :=
  match a with
  | Buffered | Spilled _ => true
  | FlushFailed e _ _ | Stopped e _ => is_Exception e
  end.

(** A tick in which nothing is raised but errors of class [Exception]
    by the provider and the write: every line is printed and the sleep
    returns. *)
Definition only_errors (env : tick_env) : bool :=
  value_or_error (cpu_percent_ans env)
  && value_or_error (virtual_memory_ans env)
  && write_or_error (writerow_ans env)
  && returned (stats_print_ans env)
  && returned (logged_print_ans env)
  && returned (write_error_print_ans env)
  && returned (failed_print_ans env)
  && returned (sleep_ans env).



(** ** Reading a trace *)

(** The two calls that set the pace of the loop: a sample, a sleep. *)
Definition is_beat (ev : event) : bool :=
  match ev with
  | CpuPercent _ | Slept _ => true
  | _ => false
  end.

Definition pace (tr : list event) : list event := filter is_beat tr.

(** [n] ticks run to their end: a one-second sample and a sleep of
    [LOG_INTERVAL_SECONDS] each. *)
Fixpoint beats (n : nat) : list event :=
  match n with
  | O => []
  | S k => CpuPercent 1 :: Slept LOG_INTERVAL_SECONDS :: beats k
  end.

(** The pace of the loop, read off its environment. *)
Fixpoint loop_pace (envs : list tick_env) : list event :=
  match envs with
  | [] => []
  | env :: rest =>
      pace (tick_events env)
      ++ match tick_outcome env with
         | Returns _ => loop_pace rest
         | _ => []
         end
  end.

(** ** Environments used as examples *)

(** A time of day on 2026-11-01. *)
Definition at_time (h m s : Z) : datetime := mkDatetime 2026 11 1 h m s.

(** A tick where every call returns, with the answers of the two
    queries, of the write, and of the sleep. *)
Definition tick_with (cpu mem : answer float) (t : datetime)
    (wr : write_answer) (sl : answer unit) : tick_env :=
  mkTick cpu mem (Ok tt) t wr (Ok tt) (Ok tt) (Ok tt) sl.

(** A tick where everything works. *)
Definition sample_ok (t : datetime) (c m : float) : tick_env :=
  tick_with (Ok c) (Ok m) t Buffered (Ok tt).

(** A tick where [psutil.cpu_percent] raises an error. *)
Definition sample_denied (t : datetime) : tick_env :=
  tick_with (Fail (Exception "access denied")) (Ok 45.5%float) t Buffered (Ok tt).

(** A tick with Ctrl+C during its sleep. *)
Definition ctrl_c_asleep (t : datetime) (c m : float) : tick_env :=
  tick_with (Ok c) (Ok m) t Buffered (Fail KeyboardInterrupt).

(** A tick with Ctrl+C during the measurement of [psutil.cpu_percent]. *)
Definition ctrl_c_measuring (t : datetime) : tick_env :=
  tick_with (Fail KeyboardInterrupt) (Ok 45.5%float) t Buffered (Ok tt).

(** A tick whose write finds the disk full: the flush fails before it
    writes anything. *)
Definition disk_full (t : datetime) (c m : float) : tick_env :=
  tick_with (Ok c) (Ok m) t
    (FlushFailed (Exception "No space left on device") 0 None) (Ok tt).


(** A run where every call outside the loop returns. *)
Definition run_with (envs : list tick_env) : run_env :=
  mkRun (Ok tt) (Ok tt) Opens Buffered (Ok tt) envs Closes (Ok tt) (Ok tt).

(** A run that cannot open the log file. *)
Definition cannot_open : run_env :=
  mkRun (Ok tt) (Ok tt) (OpenFails (Exception "Permission denied") false)
    Buffered (Ok tt) [] Closes (Ok tt) (Ok tt).

(** A good sample, a failed one, a good one, then Ctrl+C. *)
Definition three_ticks : run_env :=
  run_with
    [sample_ok (at_time 12 0 1) 12.5 45.5;
     sample_denied (at_time 12 0 7);
     ctrl_c_asleep (at_time 12 0 13) 10 50].

(** One sample, then Ctrl+C. *)
Definition one_tick : run_env :=
  run_with [ctrl_c_asleep (at_time 13 30 0) 25 50].

(** * Proofs *)

(** ** The loop body *)

(** Case analysis along the code: split on whatever answer the next
    [match] of the goal looks at. *)
Ltac split_matches :=
  repeat (match goal with
          | |- context [match ?x with _ => _ end] => is_var x; destruct x
          end; cbv beta iota zeta).

(** Reduce the monadic code of a tick and nothing else: timestamps and
    the lists of the file stay folded. *)
Ltac run_tick :=
  cbv beta iota zeta delta
    [tick get_system_stats write_log_entry try_except_Exception
     bind ret raise reply emit print psutil_cpu_percent
     psutil_virtual_memory_percent time_sleep writerow is_not_None andb
     fst snd disk handle trace log opened blank
     tick_outcome tick_events tick_file tick_row tick_rows accepts
     sleep_outcome
     cpu_percent_ans virtual_memory_ans stats_print_ans now writerow_ans
     logged_print_ans write_error_print_ans failed_print_ans sleep_ans].

Ltac tidy_trace := rewrite <- ?app_assoc; simpl app.

(** On an open handle a tick is its three readings: what it does to the
    file, the events it adds, how it ends. *)
Lemma tick_eq (env : tick_env) (w : world) (buf : list row) :
  handle w = Some buf ->
  tick env w = (log (tick_file env w) (tick_events env), tick_outcome env).
Proof.
  intros H. destruct w as [d h tr]. simpl in H. subst h.
  destruct env as [c v sp n wr lp wp fp sl].
  run_tick. split_matches; tidy_trace; reflexivity.
Qed.

Lemma tick_outcome_correct (env : tick_env) (w : world) (buf : list row) :
  handle w = Some buf -> snd (tick env w) = tick_outcome env.
Proof. intros H. now rewrite (tick_eq env w H). Qed.

Lemma tick_trace (env : tick_env) (w : world) (buf : list row) :
  handle w = Some buf ->
  trace (fst (tick env w)) = trace w ++ tick_events env.
Proof.
  intros H. rewrite (tick_eq env w H). unfold tick_file.
  destruct (tick_row env) as [r | ]; [ | reflexivity ].
  simpl. unfold writerow. rewrite H.
  now destruct (writerow_ans env) as [ | n | e n torn | e [ | ] ].
Qed.

(** ** What becomes of rows *)

Lemma kept_of_refl (rows : list row) : kept_of rows rows.
Proof. induction rows; constructor; assumption. Qed.

Lemma kept_of_none (rows : list row) : kept_of rows [].
Proof. induction rows; constructor; assumption. Qed.

Lemma kept_of_app (a a' b b' : list row) :
  kept_of a a' -> kept_of b b' -> kept_of (a ++ b) (a' ++ b').
Proof. induction 1; intros Hb; simpl; try constructor; auto. Qed.

Lemma kept_of_flush (n : nat) (torn : option nat) (buf : list row) :
  kept_of buf (flush n torn buf).
Proof.
  unfold flush. rewrite <- (firstn_skipn n buf) at 1.
  apply kept_of_app; [apply kept_of_refl | ].
  destruct torn as [k | ]; [ | apply kept_of_none ].
  destruct (nth_error buf n) as [r | ] eqn:E; [ | apply kept_of_none ].
  apply nth_error_split in E. destruct E as (l1 & l2 & -> & <-).
  rewrite skipn_app, Nat.sub_diag, skipn_all. simpl.
  apply kept_cut, kept_of_none.
Qed.

Lemma kept_of_length (rows found : list row) :
  kept_of rows found -> List.length found <= List.length rows.
Proof. induction 1; simpl; lia. Qed.

Lemma kept_of_In (rows found : list row) (r : row) :
  kept_of rows found -> In r found ->
  exists r0, In r0 rows /\ (r = r0 \/ exists k, r = cut k r0).
Proof.
  induction 1 as [ | r1 rows found _ IH | k r1 rows found _ IH | r1 rows found _ IH];
    simpl; intros Hin.
  - destruct Hin.
  - destruct Hin as [<- | Hin]; [exists r1; auto | ].
    destruct (IH Hin) as (r0 & H0 & Hr). exists r0. auto.
  - destruct Hin as [<- | Hin]; [exists r1; split; eauto | ].
    destruct (IH Hin) as (r0 & H0 & Hr). exists r0. auto.
  - destruct (IH Hin) as (r0 & H0 & Hr). exists r0. auto.
Qed.

Lemma In_firstn (A : Type) (n : nat) (l : list A) (x : A) :
  In x (firstn n l) -> In x l.
Proof.
  intros H. rewrite <- (firstn_skipn n l). apply in_or_app. now left.
Qed.

(** A cut row ends where the write stopped: it is no header and no data
    row, and has no float that the whole row has not. *)
Lemma cut_last (k : nat) (r : row) :
  r = [] /\ cut k r = [] \/ exists front v, cut k r = front ++ [VCut v].
Proof.
  unfold cut. destruct r as [ | v0 r]; [left; split; [reflexivity | ] | right].
  - now destruct k.
  - set (k' := Nat.min k (List.length (v0 :: r) - 1)).
    assert (Hk : k' < List.length (v0 :: r)) by (subst k'; simpl; lia).
    destruct (nth_error (v0 :: r) k') as [v | ] eqn:E.
    + eauto.
    + apply nth_error_None in E. lia.
Qed.

Lemma cut_not_header (k : nat) (r : row) : is_header (cut k r) = false.
Proof.
  destruct (cut_last k r) as [ [_ ->] | (front & v & ->) ]; [reflexivity | ].
  destruct front as [ | a [ | b [ | c [ | ? ? ] ] ] ]; try reflexivity;
    simpl; repeat match goal with
                  | |- context [match ?x with _ => _ end] => is_var x; destruct x
                  end; reflexivity.
Qed.

Lemma cut_In_float (k : nat) (r : row) (x : float) :
  In (VFloat x) (cut k r) -> In (VFloat x) r.
Proof.
  unfold cut. intros H. apply in_app_or in H. destruct H as [H | H].
  - eapply In_firstn; eauto.
  - destruct (nth_error r _); [ | destruct H].
    destruct H as [H | [] ]. discriminate H.
Qed.

(** ** The writer *)

Lemma settled_log (base acc : list row) (w : world) (evs : list event) :
  settled base acc w -> settled base acc (log w evs).
Proof. intros H. exact H. Qed.

Lemma writerow_settled (base acc : list row) (a : write_answer) (r : row)
    (w : world) (buf : list row) :
  handle w = Some buf ->
  settled base acc w ->
  settled base (acc ++ (if accepts a then [r] else [])) (fst (writerow a r w)) /\
  exists buf', handle (fst (writerow a r w)) = Some buf'.
Proof.
  intros Hh (done & landed & Hacc & Hdisk & Hk).
  destruct w as [d h tr]. simpl in Hh, Hdisk. subst h d.
  unfold buffered in Hacc. simpl in Hacc. subst acc.
  unfold writerow, settled, buffered, on_disk. simpl.
  destruct a as [ | n | e n torn | e [ | ] ]; simpl;
    (split; [ | eexists; reflexivity ]).
  - exists done, landed. rewrite <- app_assoc. auto.
  - exists (done ++ firstn n buf), (landed ++ firstn n buf).
    split; [ | split ].
    + rewrite <- !app_assoc. f_equal.
      now rewrite (app_assoc (firstn n buf)), firstn_skipn.
    + now rewrite <- app_assoc.
    + apply kept_of_app; [assumption | apply kept_of_refl].
  - exists (done ++ buf), (landed ++ flush n torn buf).
    split; [ | split ].
    + now rewrite !app_nil_r.
    + now rewrite <- app_assoc.
    + apply kept_of_app; [assumption | apply kept_of_flush].
  - exists done, landed. rewrite <- app_assoc. auto.
  - exists done, landed. rewrite app_nil_r. auto.
Qed.

(** With no flush failing, nothing the file object took is lost. *)
Lemma writerow_clean (a : write_answer) (r : row) (w : world) (buf : list row) :
  handle w = Some buf ->
  no_flush_failure a = true ->
  persisted (fst (writerow a r w)) =
  persisted w ++ (if accepts a then [r] else []).
Proof.
  intros Hh Ha. destruct w as [d h tr]. simpl in Hh. subst h.
  unfold writerow, persisted, on_disk, buffered. simpl.
  destruct a as [ | n | e n torn | e [ | ] ]; try discriminate Ha; simpl.
  - now rewrite app_assoc.
  - rewrite <- !app_assoc. f_equal.
    now rewrite (app_assoc (firstn n buf)), firstn_skipn.
  - now rewrite app_assoc.
  - now rewrite app_nil_r.
Qed.

Section OpenHandle.

Variables (env : tick_env) (w : world) (buf : list row).
Hypothesis Hopen : handle w = Some buf.

Lemma tick_handle : exists buf', handle (fst (tick env w)) = Some buf'.
Proof.
  rewrite (tick_eq env w Hopen). unfold tick_file. simpl.
  destruct (tick_row env) as [r | ]; [ | eauto ].
  unfold writerow. rewrite Hopen.
  destruct (writerow_ans env) as [ | n | e n torn | e [ | ] ]; simpl; eauto.
Qed.

Lemma tick_settled (base acc : list row) :
  settled base acc w ->
  settled base (acc ++ tick_rows env) (fst (tick env w)).
Proof.
  intros Hs. rewrite (tick_eq env w Hopen). apply settled_log.
  unfold tick_file, tick_rows.
  destruct (tick_row env) as [r | ].
  - exact (proj1 (writerow_settled (writerow_ans env) r Hopen Hs)).
  - now rewrite app_nil_r.
Qed.

Lemma tick_clean :
  no_flush_failure (writerow_ans env) = true ->
  persisted (fst (tick env w)) = persisted w ++ tick_rows env.
Proof.
  intros Hc. rewrite (tick_eq env w Hopen).
  change (persisted (fst (log (tick_file env w) (tick_events env), tick_outcome env)))
    with (persisted (tick_file env w)).
  unfold tick_file, tick_rows.
  destruct (tick_row env) as [r | ].
  - now apply writerow_clean with (buf := buf).
  - now rewrite app_nil_r.
Qed.

End OpenHandle.

(** ** The loop *)

Lemma tick_not_running (env : tick_env) : tick_outcome env <> Running.
Proof.
  destruct env as [c v sp n wr lp wp fp sl].
  run_tick. split_matches; discriminate.
Qed.

Lemma loop_cons (env : tick_env) (rest : list tick_env) (w : world)
    (buf : list row) :
  handle w = Some buf ->
  loop (env :: rest) w =
  match tick_outcome env with
  | Returns _ => loop rest (fst (tick env w))
  | o => (fst (tick env w), o)
  end.
Proof.
  intros H. change (loop (env :: rest) w) with (bind (tick env) (fun _ => loop rest) w).
  unfold bind. rewrite (tick_eq env w H). cbn [fst].
  now destruct (tick_outcome env).
Qed.

Lemma loop_spec (envs : list tick_env) :
  forall (w : world) (buf base acc : list row),
    handle w = Some buf ->
    settled base acc w ->
    snd (loop envs w) = loop_outcome envs /\
    (exists buf', handle (fst (loop envs w)) = Some buf') /\
    settled base (acc ++ accepted envs) (fst (loop envs w)) /\
    trace (fst (loop envs w)) = trace w ++ loop_events envs.
Proof.
  induction envs as [ | env rest IH]; intros w buf base acc Hopen Hs.
  - simpl. rewrite !app_nil_r. eauto.
  - rewrite (loop_cons env rest w Hopen).
    destruct (tick_handle env w Hopen) as [buf' Hopen'].
    pose proof (tick_settled env Hopen Hs) as Hs'.
    pose proof (tick_trace env w Hopen) as Ht.
    simpl loop_outcome. simpl accepted. simpl loop_events.
    destruct (tick_outcome env) as [ [] | e | ].
    + destruct (IH _ _ _ _ Hopen' Hs') as (Ho & Hh & Hset & Htr).
      rewrite Ho, Htr, Ht, !app_assoc. auto.
    + cbn [fst snd]. rewrite !app_nil_r. eauto.
    + cbn [fst snd]. rewrite !app_nil_r. eauto.
Qed.

Lemma loop_clean (envs : list tick_env) :
  forall (w : world) (buf : list row),
    handle w = Some buf ->
    forallb (fun t => no_flush_failure (writerow_ans t)) envs = true ->
    persisted (fst (loop envs w)) = persisted w ++ accepted envs.
Proof.
  induction envs as [ | env rest IH]; intros w buf Hopen Hc.
  - simpl. now rewrite app_nil_r.
  - simpl in Hc. apply andb_true_iff in Hc. destruct Hc as [Hc Hrest].
    rewrite (loop_cons env rest w Hopen).
    destruct (tick_handle env w Hopen) as [buf' Hopen'].
    pose proof (tick_clean env w Hopen Hc) as Hp.
    simpl accepted.
    destruct (tick_outcome env) as [ [] | e | ].
    + rewrite (IH _ _ Hopen' Hrest), Hp. now rewrite app_assoc.
    + cbn [fst]. now rewrite app_nil_r.
    + cbn [fst]. now rewrite app_nil_r.
Qed.


Lemma loop_outcome_not_returns (envs : list tick_env) (u : unit) :
  loop_outcome envs <> Returns u.
Proof.
  induction envs as [ | env rest IH]; simpl; [discriminate | ].
  destruct (tick_outcome env) as [ [] | e | ] eqn:E; try discriminate.
  exact IH.
Qed.

(** ** The session *)

Lemma header_eq (env : run_env) (w : world) (buf : list row) :
  handle w = Some buf ->
  header_step env w =
  (log (fst (writerow (header_ans env) CSV_HEADER w)) (header_events env),
   header_outcome env).
Proof.
  intros H. destruct w as [d h tr]. simpl in H. subst h.
  unfold header_step, header_events, header_outcome, header_step, bind,
    writerow, print, emit, raise, blank, opened, log.
  cbn [handle disk trace fst snd].
  destruct (header_ans env) as [ | n | e n torn | e [ | ] ];
    destruct (header_print_ans env) as [ [] | e' ]; cbn [fst snd trace disk handle];
    rewrite ?app_nil_r; reflexivity.
Qed.

Lemma header_outcome_returns (env : run_env) :
  header_outcome env = Returns tt <-> header_returns env = true.
Proof.
  unfold header_outcome, header_returns, header_step, bind, writerow, print,
    emit, raise, blank, opened.
  cbn [handle].
  destruct (header_ans env) as [ | n | e n torn | e [ | ] ];
    destruct (header_print_ans env) as [ [] | e' ]; cbn [fst snd];
    split; intros H; try reflexivity; discriminate H.
Qed.

Lemma header_outcome_cases (env : run_env) :
  if header_returns env then header_outcome env = Returns tt
  else exists e, header_outcome env = Raises e.
Proof.
  unfold header_outcome, header_returns, header_step, bind, writerow, print,
    emit, raise, blank, opened.
  cbn [handle].
  destruct (header_ans env) as [ | n | e n torn | e [ | ] ];
    destruct (header_print_ans env) as [ [] | e' ]; cbn [fst snd];
    eauto.
Qed.

Lemma session_eq (env : run_env) (d : option (list row)) (tr : list event) :
  session env (is_file d) (opened d tr) =
  if fresh d
  then match header_outcome env with
       | Returns _ => loop (ticks env) (fst (header_step env (opened d tr)))
       | o => (fst (header_step env (opened d tr)), o)
       end
  else loop (ticks env) (opened d tr).
Proof.
  assert (Hh : handle (opened d tr) = Some []) by reflexivity.
  pose proof (header_eq env (opened d tr) Hh) as He.
  unfold session. fold (header_step env).
  destruct d as [ [ | r rows] | ]; cbn [is_file negb fresh];
    unfold bind at 1; unfold os_path_getsize_is_0, ret; cbn [opened disk rows_of];
    try reflexivity;
    unfold bind; cbn [opened rows_of] in He; rewrite He; cbn [fst];
    destruct (header_outcome env); reflexivity.
Qed.

Lemma settled_opened (d : option (list row)) (tr : list event) :
  settled (rows_of d) [] (opened d tr).
Proof. exists [], []. simpl. rewrite app_nil_r. repeat split. constructor. Qed.

Lemma session_spec (env : run_env) (d : option (list row)) (tr : list event) :
  let r := session env (is_file d) (opened d tr) in
  snd r = session_outcome env d /\
  (exists buf, handle (fst r) = Some buf) /\
  settled (rows_of d) (session_rows env d) (fst r) /\
  trace (fst r) = tr ++ session_events env d.
Proof.
  cbv zeta. rewrite session_eq.
  unfold session_outcome, session_rows, session_events.
  assert (Hh : handle (opened d tr) = Some []) by reflexivity.
  pose proof (settled_opened d tr) as Hs.
  destruct (fresh d).
  - rewrite (header_eq env (opened d tr) Hh). cbn [fst].
    destruct (writerow_settled (header_ans env) CSV_HEADER Hh Hs) as (Hs1 & buf1 & Hh1).
    simpl app in Hs1.
    set (w1 := log (fst (writerow (header_ans env) CSV_HEADER (opened d tr)))
                 (header_events env)).
    assert (Hh1' : handle w1 = Some buf1) by exact Hh1.
    assert (Hs1' : settled (rows_of d)
                     (if accepts (header_ans env) then [CSV_HEADER] else []) w1)
      by exact Hs1.
    assert (Ht1 : trace w1 = tr ++ header_events env).
    { subst w1. unfold log. cbn [trace]. f_equal.
      unfold writerow. cbn [opened handle].
      now destruct (header_ans env) as [ | n | e n torn | e [ | ] ]. }
    pose proof (header_outcome_cases env) as Hc.
    destruct (header_returns env).
    + rewrite Hc.
      destruct (loop_spec (ticks env) Hh1' Hs1') as (Ho & Hb & Hset & Htr).
      rewrite Htr, Ht1, app_assoc. auto.
    + destruct Hc as [e ->]. cbn [fst snd]. rewrite !app_nil_r. eauto.
  - destruct (loop_spec (ticks env) Hh Hs) as (Ho & Hb & Hset & Htr).
    auto.
Qed.

Lemma session_clean (env : run_env) (d : option (list row)) (tr : list event) :
  no_flush_failure (header_ans env) = true ->
  forallb (fun t => no_flush_failure (writerow_ans t)) (ticks env) = true ->
  persisted (fst (session env (is_file d) (opened d tr))) =
  rows_of d ++ session_rows env d.
Proof.
  intros Hhead Hticks. rewrite session_eq. unfold session_rows.
  assert (Hh : handle (opened d tr) = Some []) by reflexivity.
  assert (Hp : persisted (opened d tr) = rows_of d)
    by (unfold persisted, on_disk, buffered; simpl; apply app_nil_r).
  destruct (fresh d).
  - rewrite (header_eq env (opened d tr) Hh). cbn [fst].
    pose proof (writerow_clean (header_ans env) CSV_HEADER (opened d tr) Hh Hhead) as Hw.
    destruct (writerow_settled (header_ans env) CSV_HEADER Hh (settled_opened d tr))
      as (_ & buf1 & Hh1).
    set (w1 := log (fst (writerow (header_ans env) CSV_HEADER (opened d tr)))
                 (header_events env)).
    assert (Hh1' : handle w1 = Some buf1) by exact Hh1.
    assert (Hp1 : persisted w1 =
                  rows_of d ++ (if accepts (header_ans env) then [CSV_HEADER] else []))
      by (rewrite <- Hp; exact Hw).
    pose proof (header_outcome_cases env) as Hc.
    destruct (header_returns env).
    + rewrite Hc. rewrite (loop_clean (ticks env) w1 Hh1' Hticks), Hp1.
      now rewrite app_assoc.
    + destruct Hc as [e ->]. cbn [fst]. now rewrite app_nil_r.
  - rewrite (loop_clean (ticks env) (opened d tr) Hh Hticks). now rewrite Hp.
Qed.

(** ** The run *)

Lemma main_unfold (env : run_env) (d : option (list row)) (tr : list event) :
  main env (mkWorld d None tr) =
  match banner_ans env with
  | Fail e => (mkWorld d None tr, Raises e)
  | Ok _ =>
      match press_ans env with
      | Fail e => (mkWorld d None (tr ++ firstn 1 banner), Raises e)
      | Ok _ =>
          match open_ans env with
          | OpenFails e created =>
              handled env
                (mkWorld (if created then Some (rows_of d) else d) None
                   (tr ++ banner))
                (Raises e)
          | Opens =>
              let r := session env (is_file d) (opened d (tr ++ banner)) in
              match snd r with
              | Running => (fst r, Running)
              | o =>
                  handled env (fst (close (close_ans env) (fst r)))
                    (close_outcome (close_ans env) o)
              end
          end
      end
  end.
Proof.
  unfold main, handled, with_open, open_append, close, close_outcome, print,
    os_path_isfile, opened, banner.
  destruct (banner_ans env) as [ [] | e ]; [ | reflexivity ].
  destruct (press_ans env) as [ [] | e ]; [ | reflexivity ].
  unfold bind, emit, raise, log, on_disk. cbn [disk handle trace].
  unfold try_finally at 1. unfold try_except at 1.
  cbn [disk handle trace].
  rewrite <- !app_assoc. simpl app.
  destruct (open_ans env) as [ | e created ].
  - cbv zeta. unfold try_finally, try_except.
    match goal with
    | |- context [session env (is_file d) ?w0] =>
        destruct (session env (is_file d) w0) as [w3 [ [] | e | ] ]
    end;
      cbn [fst snd]; unfold try_finally, try_except;
      destruct (close_ans env) as [ | e' n torn ]; reflexivity.
  - unfold try_finally, try_except. reflexivity.
Qed.

Lemma handled_store (env : run_env) (w : world) (o : outcome unit) :
  disk (fst (handled env w o)) = disk w /\
  handle (fst (handled env w o)) = handle w.
Proof.
  unfold handled, try_finally, try_except, main_handlers, print, emit, raise.
  destruct o as [ [] | [ | code | msg ] | ];
    destruct (notice_ans env) as [ [] | e1 ];
    destruct (exit_ans env) as [ [] | e2 ]; split; reflexivity.
Qed.

Lemma handled_caught (env : run_env) (w : world) (e : exn) :
  caught e = true ->
  notice_ans env = Ok tt ->
  exit_ans env = Ok tt ->
  handled env w (Raises e) =
  (log w [Printed (stop_notice e); Printed [VStr "Exiting script."]], Returns tt).
Proof.
  intros He Hn Hx.
  unfold handled, try_finally, try_except, main_handlers, print, emit, raise.
  rewrite Hn, Hx.
  destruct e as [ | code | msg ]; try discriminate He;
    unfold log; cbn [disk handle trace]; now rewrite <- app_assoc.
Qed.


(** ** Where the rows of a run are *)

Lemma settled_landed (base acc : list row) (w : world) :
  settled base acc w ->
  (exists landed, disk w = Some (base ++ landed) /\ kept_of acc landed) /\
  (exists new, persisted w = base ++ new /\ kept_of acc new).
Proof.
  intros (done & landed & -> & Hd & Hk). split.
  - exists landed. split; [assumption | ].
    rewrite <- (app_nil_r landed).
    apply kept_of_app; [assumption | apply kept_of_none].
  - exists (landed ++ buffered w). unfold persisted, on_disk. rewrite Hd.
    simpl. split; [now rewrite app_assoc | ].
    apply kept_of_app; [assumption | apply kept_of_refl].
Qed.

Lemma close_settled (c : close_answer) (base acc : list row) (w : world) :
  settled base acc w ->
  settled base acc (fst (close c w)) /\ handle (fst (close c w)) = None.
Proof.
  intros (done & landed & -> & Hd & Hk).
  unfold close, bind, emit, settled, buffered, on_disk.
  cbn [log disk handle trace fst].
  destruct c as [ | e n torn ]; cbn [fst disk handle]; (split; [ | reflexivity ]);
    rewrite Hd; cbn [rows_of].
  - exists (done ++ buffered w), (landed ++ buffered w).
    unfold buffered. split; [ | split ].
    + now rewrite app_nil_r.
    + now rewrite <- app_assoc.
    + apply kept_of_app; [assumption | apply kept_of_refl].
  - exists (done ++ buffered w), (landed ++ flush n torn (buffered w)).
    unfold buffered. split; [ | split ].
    + now rewrite app_nil_r.
    + now rewrite <- app_assoc.
    + apply kept_of_app; [assumption | apply kept_of_flush].
Qed.

Lemma settled_handled (env : run_env) (base acc : list row) (w : world)
    (o : outcome unit) :
  settled base acc w -> settled base acc (fst (handled env w o)).
Proof.
  intros (done & landed & Ha & Hd & Hk).
  destruct (handled_store env w o) as [Hd' Hh'].
  exists done, landed. unfold buffered. rewrite Hd', Hh'. auto.
Qed.

Lemma reaches_session_inv (env : run_env) :
  reaches_session env = true ->
  banner_ans env = Ok tt /\ press_ans env = Ok tt /\ open_ans env = Opens.
Proof.
  unfold reaches_session.
  destruct (banner_ans env) as [ [] | ? ]; [ | discriminate ].
  destruct (press_ans env) as [ [] | ? ]; [ | discriminate ].
  destruct (open_ans env); [ | discriminate ]. auto.
Qed.

Lemma main_reached (env : run_env) (d : option (list row)) (tr : list event) :
  reaches_session env = true ->
  main env (mkWorld d None tr) =
  let r := session env (is_file d) (opened d (tr ++ banner)) in
  match snd r with
  | Running => (fst r, Running)
  | o =>
      handled env (fst (close (close_ans env) (fst r)))
        (close_outcome (close_ans env) o)
  end.
Proof.
  intros H. destruct (reaches_session_inv env H) as (Hb & Hp & Ho).
  rewrite main_unfold, Hb, Hp, Ho. reflexivity.
Qed.

Lemma main_settled (env : run_env) (d : option (list row)) (tr : list event) :
  reaches_session env = true ->
  settled (rows_of d) (session_rows env d) (fst (main env (mkWorld d None tr))).
Proof.
  intros H. rewrite (main_reached env d tr H). cbv zeta.
  destruct (session_spec env d (tr ++ banner)) as (_ & _ & Hs & _).
  destruct (snd (session env (is_file d) (opened d (tr ++ banner)))).
  - apply settled_handled. now apply close_settled.
  - apply settled_handled. now apply close_settled.
  - exact Hs.
Qed.

Lemma main_not_reached (env : run_env) (d : option (list row)) (tr : list event) :
  reaches_session env = false ->
  handle (fst (main env (mkWorld d None tr))) = None /\
  (disk (fst (main env (mkWorld d None tr))) = d \/
   disk (fst (main env (mkWorld d None tr))) = Some (rows_of d) /\
   exists e, open_ans env = OpenFails e true).
Proof.
  intros H. rewrite main_unfold. unfold reaches_session in H.
  destruct (banner_ans env) as [ [] | ? ]; [ | simpl; auto ].
  destruct (press_ans env) as [ [] | ? ]; [ | simpl; auto ].
  destruct (open_ans env) as [ | e created ]; [discriminate H | ].
  match goal with
  | |- context [handled env ?w ?o] =>
      destruct (handled_store env w o) as [Hd Hh]; rewrite Hd, Hh
  end.
  cbn [disk handle]. split; [reflexivity | ].
  destruct created; eauto.
Qed.

(** What a run leaves on the file: what was there, then of the rows
    the file object took, in order, each whole, cut short or missing. *)
Lemma main_landed (env : run_env) (d : option (list row)) (tr : list event) :
  (exists landed,
      rows_of (disk (fst (main env (mkWorld d None tr)))) = rows_of d ++ landed /\
      kept_of (session_rows env d) landed) /\
  (exists new,
      persisted (fst (main env (mkWorld d None tr))) = rows_of d ++ new /\
      kept_of (session_rows env d) new) /\
  (is_file d = true -> is_file (disk (fst (main env (mkWorld d None tr)))) = true).
Proof.
  destruct (reaches_session env) eqn:E.
  - destruct (settled_landed (main_settled env d tr E))
      as [ (landed & Hd & Hk) Hnew ].
    split; [ | split; [exact Hnew | ] ].
    + exists landed. rewrite Hd. auto.
    + intros _. now rewrite Hd.
  - destruct (main_not_reached env d tr E) as [Hh Hd].
    assert (Hr : rows_of (disk (fst (main env (mkWorld d None tr)))) = rows_of d)
      by (destruct Hd as [-> | [-> _] ]; reflexivity).
    split; [ | split ].
    + exists []. rewrite Hr, app_nil_r. split; [reflexivity | apply kept_of_none].
    + exists []. unfold persisted, on_disk, buffered. rewrite Hr, Hh, !app_nil_r.
      split; [reflexivity | apply kept_of_none].
    + intros Hf. destruct Hd as [-> | [-> _] ]; [assumption | reflexivity].
Qed.

Lemma close_disk (w : world) : disk (fst (close Closes w)) = Some (persisted w).
Proof. reflexivity. Qed.

(** A run that loses nothing leaves on the file what was there and
    then the first of the rows the file object took. *)
Lemma main_lossless (env : run_env) (d : option (list row)) (tr : list event) :
  lossless env = true ->
  exists landed rest,
    rows_of (disk (fst (main env (mkWorld d None tr)))) = rows_of d ++ landed /\
    session_rows env d = landed ++ rest /\
    (is_file d = true -> is_file (disk (fst (main env (mkWorld d None tr)))) = true).
Proof.
  intros Hl. unfold lossless in Hl.
  apply andb_true_iff in Hl. destruct Hl as [Hl Hclose].
  apply andb_true_iff in Hl. destruct Hl as [Hhead Hticks].
  destruct (reaches_session env) eqn:E.
  - rewrite (main_reached env d tr E). cbv zeta.
    pose proof (session_clean env d (tr ++ banner) Hhead Hticks) as Hp.
    destruct (session_spec env d (tr ++ banner)) as (_ & _ & Hs & _).
    destruct Hs as (done & landed & Hacc & Hd & _).
    destruct (close_ans env); [ | discriminate Hclose ].
    destruct (snd (session env (is_file d) (opened d (tr ++ banner)))) as [u | e | ].
    + rewrite (proj1 (handled_store env _ _)), close_disk, Hp.
      exists (session_rows env d), []. rewrite app_nil_r. auto.
    + rewrite (proj1 (handled_store env _ _)), close_disk, Hp.
      exists (session_rows env d), []. rewrite app_nil_r. auto.
    + cbn [fst]. rewrite Hd. cbn [rows_of].
      exists landed, (buffered (fst (session env (is_file d) (opened d (tr ++ banner))))).
      unfold persisted, on_disk in Hp. rewrite Hd in Hp. cbn [rows_of] in Hp.
      rewrite <- app_assoc in Hp. apply app_inv_head in Hp. auto.
  - destruct (main_not_reached env d tr E) as [Hh Hd].
    exists [], (session_rows env d). rewrite app_nil_r.
    destruct Hd as [-> | [-> _] ]; repeat split; auto.
Qed.

(** ** The rows the file object is handed *)

Lemma tick_rows_from (env : tick_env) (r : row) :
  In r (tick_rows env) ->
  exists c m,
    cpu_percent_ans env = Ok c /\ virtual_memory_ans env = Ok m /\
    r = [VStr (strftime (now env)); VFloat c; VFloat m].
Proof.
  unfold tick_rows, tick_row.
  destruct (cpu_percent_ans env) as [c | ?]; [ | intros [] ].
  destruct (virtual_memory_ans env) as [m | ?]; [ | intros [] ].
  destruct (accepts (writerow_ans env)); [ | intros [] ].
  intros [<- | [] ]. eauto.
Qed.

Lemma accepted_from (envs : list tick_env) (r : row) :
  In r (accepted envs) ->
  exists env c m,
    In env envs /\
    cpu_percent_ans env = Ok c /\ virtual_memory_ans env = Ok m /\
    r = [VStr (strftime (now env)); VFloat c; VFloat m].
Proof.
  induction envs as [ | env rest IH]; simpl; [intros [] | ].
  intros H. apply in_app_or in H. destruct H as [H | H].
  - destruct (tick_rows_from env r H) as (c & m & Hc & Hm & Hr).
    exists env, c, m. auto.
  - destruct (tick_outcome env); try destruct H.
    destruct (IH H) as (env' & c & m & Hin & Hrest).
    exists env', c, m. auto.
Qed.

Lemma accepted_data (envs : list tick_env) : Forall is_data_row (accepted envs).
Proof.
  apply Forall_forall. intros r H.
  destruct (accepted_from envs r H) as (env & c & m & _ & _ & _ & ->).
  now exists (strftime (now env)), c, m.
Qed.

Lemma session_rows_in (env : run_env) (d : option (list row)) (r : row) :
  In r (session_rows env d) ->
  r = CSV_HEADER /\ fresh d = true \/ In r (accepted (ticks env)).
Proof.
  unfold session_rows. destruct (fresh d); [ | auto ].
  intros H. apply in_app_or in H. destruct H as [H | H].
  - destruct (accepts (header_ans env)); [ | destruct H ].
    destruct H as [<- | [] ]. auto.
  - destruct (header_returns env); [auto | destruct H].
Qed.

Lemma tick_rows_length (env : tick_env) : List.length (tick_rows env) <= 1.
Proof.
  unfold tick_rows. destruct (tick_row env); [ | simpl; lia ].
  destruct (accepts (writerow_ans env)); simpl; lia.
Qed.

Lemma accepted_length (envs : list tick_env) :
  List.length (accepted envs) <= List.length envs.
Proof.
  induction envs as [ | env rest IH]; simpl; [lia | ].
  rewrite length_app. pose proof (tick_rows_length env).
  destruct (tick_outcome env); simpl; lia.
Qed.

Lemma data_row_not_header (r : row) : is_data_row r -> is_header r = false.
Proof. intros (ts & c & m & ->). reflexivity. Qed.

Lemma headers_app (a b : list row) : headers (a ++ b) = headers a + headers b.
Proof. unfold headers. now rewrite filter_app, length_app. Qed.

Lemma headers_none (rows : list row) :
  Forall (fun r => is_header r = false) rows -> headers rows = 0.
Proof.
  unfold headers. induction 1 as [ | r rows Hr _ IH]; [reflexivity | ].
  simpl. now rewrite Hr.
Qed.

(** Of data rows handed to the file, whatever flushes fail, no row that
    lands is a header. *)
Lemma kept_of_data (rows found : list row) :
  kept_of rows found ->
  Forall is_data_row rows ->
  Forall (whole_or_cut is_data_row) found.
Proof.
  induction 1 as [ | r rows found _ IH | k r rows found _ IH | r rows found _ IH];
    intros Hd; inversion Hd; subst; try constructor; auto.
  - now left.
  - right. now exists k, r.
Qed.

Lemma whole_or_cut_data_not_header (r : row) :
  whole_or_cut is_data_row r -> is_header r = false.
Proof.
  intros [H | (k & r0 & _ & ->) ].
  - now apply data_row_not_header.
  - apply cut_not_header.
Qed.

Lemma headers_data (rows : list row) :
  Forall (whole_or_cut is_data_row) rows -> headers rows = 0.
Proof.
  intros H. apply headers_none.
  eapply Forall_impl; [ | exact H ]. apply whole_or_cut_data_not_header.
Qed.

(** ** The log file across runs *)

Lemma store_after_landed (env : run_env) (d : option (list row)) :
  exists landed,
    rows_of (store_after env d) = rows_of d ++ landed /\
    kept_of (session_rows env d) landed /\
    (is_file d = true -> is_file (store_after env d) = true).
Proof.
  destruct (main_landed env d []) as ((landed & Hr & Hk) & _ & Hf).
  exists landed. auto.
Qed.

Lemma restarts_app (pre post : list run_env) (d : option (list row)) :
  restarts (pre ++ post) d = restarts post (restarts pre d).
Proof. apply fold_left_app. Qed.

Lemma restarts_append (runs : list run_env) :
  forall d,
    (exists k, rows_of (restarts runs d) = rows_of d ++ k) /\
    (is_file d = true -> is_file (restarts runs d) = true).
Proof.
  induction runs as [ | env rest IH]; intros d.
  - split; [exists []; simpl; now rewrite app_nil_r | auto].
  - change (restarts (env :: rest) d) with (restarts rest (store_after env d)).
    destruct (store_after_landed env d) as (landed & Hr & _ & Hf).
    destruct (IH (store_after env d)) as [ [k Hk] Hf' ].
    split; [ | auto ].
    exists (landed ++ k). now rewrite Hk, Hr, app_assoc.
Qed.

Lemma Forall_tl {A} (P : A -> Prop) (l : list A) : Forall P l -> Forall P (tl l).
Proof. destruct 1; [constructor | assumption]. Qed.

Lemma kept_of_tail (rows found : list row) :
  kept_of rows found ->
  Forall is_data_row (tl rows) ->
  headers (tl found) = 0.
Proof.
  intros Hk Hd. apply headers_data.
  inversion Hk; subst; simpl in *.
  - constructor.
  - now apply kept_of_data with (rows := rows0).
  - now apply kept_of_data with (rows := rows0).
  - apply Forall_tl. now apply kept_of_data with (rows := rows0).
Qed.

Lemma session_rows_tail (env : run_env) (d : option (list row)) :
  Forall is_data_row (tl (session_rows env d)).
Proof.
  unfold session_rows.
  destruct (fresh d); [ | apply Forall_tl, accepted_data ].
  destruct (accepts (header_ans env)); simpl;
    (destruct (header_returns env);
     [ try apply Forall_tl; apply accepted_data | constructor ]).
Qed.

Lemma session_rows_data (env : run_env) (d : option (list row)) :
  fresh d = false -> Forall is_data_row (session_rows env d).
Proof. unfold session_rows. intros ->. apply accepted_data. Qed.

Lemma fresh_rows (d : option (list row)) : fresh d = true -> rows_of d = [].
Proof. destruct d as [ [ | ? ? ] | ]; easy. Qed.

Lemma not_fresh_rows (d : option (list row)) :
  fresh d = false -> exists r rows, d = Some (r :: rows).
Proof. destruct d as [ [ | r rows ] | ]; try discriminate. eauto. Qed.

(** Whatever fails, a run puts no header behind a row. *)
Lemma store_after_header_first (env : run_env) (d : option (list row)) :
  header_first_only (rows_of d) ->
  header_first_only (rows_of (store_after env d)).
Proof.
  unfold header_first_only. intros Hd.
  destruct (store_after_landed env d) as (landed & -> & Hk & _).
  destruct (fresh d) eqn:E.
  - rewrite (fresh_rows d E). simpl app.
    apply kept_of_tail with (rows := session_rows env d);
      [assumption | apply session_rows_tail].
  - destruct (not_fresh_rows d E) as (r & rows & ->). simpl in *.
    rewrite headers_app, Hd. simpl.
    apply headers_data. apply kept_of_data with (rows := session_rows env (Some (r :: rows))).
    + assumption.
    + now apply session_rows_data.
Qed.

Lemma restarts_header_first (runs : list run_env) :
  forall d,
    header_first_only (rows_of d) ->
    header_first_only (rows_of (restarts runs d)).
Proof.
  induction runs as [ | env rest IH]; intros d Hd; [assumption | ].
  change (restarts (env :: rest) d) with (restarts rest (store_after env d)).
  now apply IH, store_after_header_first.
Qed.

Lemma header_not_accepted (env : run_env) :
  accepts (header_ans env) = false -> header_returns env = false.
Proof.
  unfold header_returns.
  now destruct (header_ans env) as [ | n | e n torn | e [ | ] ].
Qed.

Lemma Forall_prefix {A} (P : A -> Prop) (k rest : list A) :
  Forall P (k ++ rest) -> Forall P k.
Proof. intros H. now apply Forall_app in H. Qed.

(** A run that loses nothing keeps the file in shape. *)
Lemma store_after_kept (env : run_env) (d : option (list row)) :
  lossless env = true -> kept d -> kept (store_after env d).
Proof.
  intros Hl Hd. unfold store_after, start.
  destruct (main_lossless env d [] Hl) as (landed & rest & Hr & Hs & Hf).
  set (after := disk (fst (main env (mkWorld d None [])))) in *.
  destruct Hd as [Hfresh | (data & -> & Hdata) ].
  - rewrite (fresh_rows d Hfresh) in Hr. simpl in Hr.
    unfold session_rows in Hs. rewrite Hfresh in Hs.
    destruct landed as [ | x landed ].
    + left. destruct after as [ [ | ? ? ] | ]; try reflexivity. discriminate Hr.
    + right. destruct (accepts (header_ans env)) eqn:Ea.
      * simpl in Hs. injection Hs as <- Hs.
        exists landed. split.
        -- destruct after as [ rows | ]; simpl in Hr; [now subst | discriminate Hr].
        -- destruct (header_returns env).
           ++ apply Forall_prefix with (rest := rest). rewrite <- Hs. apply accepted_data.
           ++ destruct landed; [constructor | discriminate Hs].
      * rewrite (header_not_accepted env Ea) in Hs. discriminate Hs.
  - right. exists (data ++ landed). split.
    + specialize (Hf eq_refl). destruct after as [ rows | ]; [ | discriminate Hf ].
      simpl in Hr. now subst.
    + apply Forall_app. split; [assumption | ].
      apply Forall_prefix with (rest := rest). rewrite <- Hs.
      now apply session_rows_data.
Qed.

Lemma restarts_kept (runs : list run_env) :
  forallb lossless runs = true ->
  forall d, kept d -> kept (restarts runs d).
Proof.
  induction runs as [ | env rest IH]; intros Hl d Hd; [assumption | ].
  simpl in Hl. apply andb_true_iff in Hl. destruct Hl as [Henv Hrest].
  change (restarts (env :: rest) d) with (restarts rest (store_after env d)).
  apply IH; [assumption | ]. now apply store_after_kept.
Qed.

Lemma io_ok_inv (env : run_env) :
  io_ok env = true ->
  reaches_session env = true /\
  accepts (header_ans env) = true /\
  no_flush_failure (header_ans env) = true /\
  forallb (fun t => no_flush_failure (writerow_ans t)) (ticks env) = true /\
  close_ans env = Closes /\
  loop_outcome (ticks env) <> Running.
Proof.
  unfold io_ok, reaches_session. rewrite !andb_true_iff.
  intros ((((((Hb & Hp) & Ho) & Hh) & Ht) & Hc) & Hl).
  rewrite Hb, Hp, Ho.
  repeat split; try assumption.
  - now destruct (header_ans env).
  - now destruct (header_ans env).
  - now destruct (close_ans env).
  - intros E. now rewrite E in Hl.
Qed.

Lemma session_outcome_stops (env : run_env) (d : option (list row)) :
  loop_outcome (ticks env) <> Running -> session_outcome env d <> Running.
Proof.
  intros H. unfold session_outcome. destruct (fresh d); [ | assumption ].
  pose proof (header_outcome_cases env) as Hc.
  destruct (header_returns env).
  - now rewrite Hc.
  - destruct Hc as [e ->]. discriminate.
Qed.

(** A run whose file I/O works leaves what it found, then the header
    if it found the file absent or empty, then data rows. *)
Lemma store_after_ok (env : run_env) (d : option (list row)) :
  io_ok env = true ->
  exists data,
    Forall is_data_row data /\
    store_after env d =
    Some (rows_of d ++ (if fresh d then [CSV_HEADER] else []) ++ data).
Proof.
  intros Hok. destruct (io_ok_inv env Hok) as (Hr & Ha & Hh & Ht & Hc & Hl).
  exists (if fresh d
          then if header_returns env then accepted (ticks env) else []
          else accepted (ticks env)).
  split.
  - destruct (fresh d); [destruct (header_returns env) | ];
      try apply accepted_data; constructor.
  - unfold store_after, start. rewrite (main_reached env d [] Hr). cbv zeta.
    pose proof (session_clean env d ([] ++ banner) Hh Ht) as Hp.
    destruct (session_spec env d ([] ++ banner)) as (Ho & _ & _ & _).
    pose proof (session_outcome_stops env d Hl) as Hs. rewrite <- Ho in Hs.
    assert (Hrows : session_rows env d =
                    (if fresh d then [CSV_HEADER] else []) ++
                    (if fresh d
                     then if header_returns env then accepted (ticks env) else []
                     else accepted (ticks env)))
      by (unfold session_rows; rewrite Ha; now destruct (fresh d)).
    rewrite Hc.
    destruct (snd (session env (is_file d) (opened d ([] ++ banner))));
      try (now destruct Hs);
      now rewrite (proj1 (handled_store env _ _)), close_disk, Hp, Hrows.
Qed.

(** ** Timestamps and the clock *)

Ltac Zify.zify_post_hook ::= Z.div_mod_to_equations.
Lemma same_comparison_eq (c1 c2 : comparison) :
  same_comparison c1 c2 = true -> c1 = c2.
Proof. destruct c1, c2; simpl; congruence. Qed.

Lemma two_digits_in (n : Z) : (0 <= n < 100)%Z -> In n two_digits.
Proof.
  intros H. unfold two_digits. rewrite <- (Z2Nat.id n) by lia.
  apply in_map, in_seq. lia.
Qed.

(** Two-digit fields compare as their numbers: checked on all pairs. *)
Lemma pad2_table :
  forallb (fun n => forallb (fun m =>
     same_comparison (String.compare (pad2 n) (pad2 m)) (n ?= m)%Z) two_digits)
     two_digits = true.
Proof. vm_compute. reflexivity. Qed.

Lemma pad2_compare (n m : Z) :
  (0 <= n < 100)%Z -> (0 <= m < 100)%Z ->
  String.compare (pad2 n) (pad2 m) = (n ?= m)%Z.
Proof.
  intros Hn Hm. apply same_comparison_eq.
  pose proof (proj1 (forallb_forall _ _) pad2_table n (two_digits_in Hn)) as H.
  exact (proj1 (forallb_forall _ _) H m (two_digits_in Hm)).
Qed.

Lemma ascii_compare_refl (c : ascii) : Ascii.compare c c = Eq.
Proof. unfold Ascii.compare. apply N.compare_refl. Qed.

(** Strings of one length compare before what follows them. *)
Lemma compare_append (s1 s2 t1 t2 : string) :
  String.length s1 = String.length s2 ->
  String.compare (String.append s1 t1) (String.append s2 t2) =
  lex (String.compare s1 s2) (String.compare t1 t2).
Proof.
  revert s2. induction s1 as [ | c s1 IH]; intros [ | c' s2] H;
    try discriminate; simpl; [reflexivity | ].
  destruct (Ascii.compare c c'); try reflexivity.
  apply IH. now injection H.
Qed.

Lemma compare_cons (c : ascii) (s t : string) :
  String.compare (String c s) (String c t) = String.compare s t.
Proof. simpl. now rewrite ascii_compare_refl. Qed.

Lemma pad4_compare (n m : Z) :
  (0 <= n < 10000)%Z -> (0 <= m < 10000)%Z ->
  String.compare (pad4 n) (pad4 m) = (n ?= m)%Z.
Proof.
  intros Hn Hm. unfold pad4.
  rewrite compare_append by reflexivity.
  rewrite !pad2_compare by lia.
  destruct (Z.compare_spec (n / 100) (m / 100)); simpl.
  - destruct (Z.compare_spec (n mod 100) (m mod 100)); symmetry;
      [apply Z.compare_eq_iff | apply Z.compare_lt_iff | apply Z.compare_gt_iff];
      lia.
  - symmetry. apply Z.compare_lt_iff. lia.
  - symmetry. apply Z.compare_gt_iff. lia.
Qed.

Lemma on_calendar_bounds (d : datetime) :
  on_calendar d = true ->
  (0 <= year d < 10000 /\ 0 <= month d < 100 /\ 0 <= day d < 100 /\
   0 <= hour d < 100 /\ 0 <= minute d < 100 /\ 0 <= second d < 100)%Z.
Proof. unfold on_calendar. rewrite !andb_true_iff, !Z.leb_le. lia. Qed.

(** On calendar dates the timestamps compare as the datetimes. *)
Lemma strftime_compare (a b : datetime) :
  on_calendar a = true -> on_calendar b = true ->
  String.compare (strftime a) (strftime b) = dt_compare a b.
Proof.
  intros Ha Hb.
  apply on_calendar_bounds in Ha. apply on_calendar_bounds in Hb.
  unfold strftime, dt_compare.
  rewrite compare_append by reflexivity. rewrite pad4_compare by lia.
  rewrite compare_cons.
  repeat (rewrite compare_append by reflexivity; rewrite pad2_compare by lia;
          rewrite compare_cons).
  rewrite pad2_compare by lia. reflexivity.
Qed.

Lemma strftime_mono (a b : datetime) :
  on_calendar a = true -> on_calendar b = true ->
  dt_le a b -> str_le (strftime a) (strftime b).
Proof.
  intros Ha Hb H. unfold str_le, String.leb.
  rewrite strftime_compare by assumption.
  unfold dt_le in H. now destruct (dt_compare a b).
Qed.

Lemma string_compare_refl (s : string) : String.compare s s = Eq.
Proof.
  induction s as [ | c s IH]; simpl; [reflexivity | ].
  now rewrite ascii_compare_refl.
Qed.

Lemma dt_compare_eq (a b : datetime) : dt_compare a b = Eq -> a = b.
Proof.
  destruct a as [y1 mo1 d1 h1 mi1 s1], b as [y2 mo2 d2 h2 mi2 s2].
  unfold dt_compare, lex. simpl.
  destruct (Z.compare_spec y1 y2); try discriminate.
  destruct (Z.compare_spec mo1 mo2); try discriminate.
  destruct (Z.compare_spec d1 d2); try discriminate.
  destruct (Z.compare_spec h1 h2); try discriminate.
  destruct (Z.compare_spec mi1 mi2); try discriminate.
  destruct (Z.compare_spec s1 s2); try discriminate.
  intros _. now subst.
Qed.

(** The rows of the loop carry the clock readings of a sub-sequence of
    its ticks, in tick order. *)
Lemma accepted_pick (envs : list tick_env) :
  exists mask,
    map timestamp (accepted envs) =
    map (fun env => strftime (now env)) (pick mask envs).
Proof.
  induction envs as [ | env rest [mask IH] ]; [now exists [] | ].
  simpl accepted.
  assert (Hrest : exists mask',
             map timestamp
               match tick_outcome env with
               | Returns _ => accepted rest
               | _ => []
               end =
             map (fun env => strftime (now env)) (pick mask' rest)).
  { destruct (tick_outcome env); [now exists mask | now exists [] | now exists [] ]. }
  destruct Hrest as [mask' Hrest].
  unfold tick_rows, tick_row.
  destruct (cpu_percent_ans env) as [c | ?]; [ | now exists (false :: mask') ].
  destruct (virtual_memory_ans env) as [m | ?]; [ | now exists (false :: mask') ].
  destruct (accepts (writerow_ans env)); [ | now exists (false :: mask') ].
  exists (true :: mask'). simpl. now rewrite Hrest.
Qed.

Lemma accepted_sorted (envs : list tick_env) :
  forallb (fun env => on_calendar (now env)) envs = true ->
  StronglySorted dt_le (map now envs) ->
  StronglySorted str_le (map timestamp (accepted envs)).
Proof.
  induction envs as [ | env rest IH]; intros Hcal Hclock; [constructor | ].
  simpl in Hcal, Hclock. apply andb_true_iff in Hcal. destruct Hcal as [Henv Hrest].
  apply StronglySorted_inv in Hclock. destruct Hclock as [Hsorted Hlater].
  specialize (IH Hrest Hsorted).
  assert (Htail : StronglySorted str_le
            (map timestamp match tick_outcome env with
                           | Returns _ => accepted rest
                           | _ => []
                           end))
    by (destruct (tick_outcome env); [assumption | constructor | constructor]).
  assert (Hfirst : Forall (str_le (strftime (now env)))
            (map timestamp match tick_outcome env with
                           | Returns _ => accepted rest
                           | _ => []
                           end)).
  { apply Forall_forall. intros ts Hts. apply in_map_iff in Hts.
    destruct Hts as (r & <- & Hr).
    assert (Hin : In r (accepted rest))
      by (destruct (tick_outcome env); [assumption | destruct Hr | destruct Hr]).
    destruct (accepted_from rest r Hin) as (env' & c & m & Hin' & _ & _ & ->).
    simpl. apply strftime_mono; auto.
    - exact (proj1 (forallb_forall _ _) Hrest env' Hin').
    - exact (proj1 (Forall_forall _ _) Hlater (now env') (in_map now rest env' Hin')). }
  simpl accepted. unfold tick_rows, tick_row.
  destruct (cpu_percent_ans env) as [c | ?]; [ | assumption ].
  destruct (virtual_memory_ans env) as [m | ?]; [ | assumption ].
  destruct (accepts (writerow_ans env)); [ | assumption ].
  simpl. now constructor.
Qed.

(** ** Two runs, computed *)

Example three_ticks_store :
  store_after three_ticks None =
  Some [CSV_HEADER;
        [VStr "2026-11-01 12:00:01"; VFloat 12.5; VFloat 45.5];
        [VStr "2026-11-01 12:00:13"; VFloat 10; VFloat 50]].
Proof. vm_compute. reflexivity. Qed.

Example restart_store :
  restarts [cannot_open; three_ticks; one_tick] None =
  Some [CSV_HEADER;
        [VStr "2026-11-01 12:00:01"; VFloat 12.5; VFloat 45.5];
        [VStr "2026-11-01 12:00:13"; VFloat 10; VFloat 50];
        [VStr "2026-11-01 13:30:00"; VFloat 25; VFloat 50]].
Proof. vm_compute. reflexivity. Qed.

(** * The claims *)

(** C1, the claim as stated fails: a flush that fails drops the write
    buffer, and the header with it.  On a new file the header and the
    first row wait in the buffer; the write of the second tick finds
    the disk full and the buffer is gone; the third row is written when
    the handle is closed.  The file then holds that row and no header,
    and the next start, finding the file not empty, writes none. *)
Lemma header_lost_with_the_buffer :
  store_after
    (run_with [sample_ok (at_time 12 0 1) 12.5 45.5;
               disk_full (at_time 12 0 7) 10 50;
               ctrl_c_asleep (at_time 12 0 13) 25 50]) None =
  Some [[VStr "2026-11-01 12:00:13"; VFloat 25; VFloat 50]] /\
  restarts
    [run_with [sample_ok (at_time 12 0 1) 12.5 45.5;
               disk_full (at_time 12 0 7) 10 50;
               ctrl_c_asleep (at_time 12 0 13) 25 50];
     one_tick] None =
  Some [[VStr "2026-11-01 12:00:13"; VFloat 25; VFloat 50];
        [VStr "2026-11-01 13:30:00"; VFloat 25; VFloat 50]] /\
  headers [[VStr "2026-11-01 12:00:13"; VFloat 25; VFloat 50];
           [VStr "2026-11-01 13:30:00"; VFloat 25; VFloat 50]] = 0.
Proof. repeat split; vm_compute; reflexivity. Qed.

(** C1, as the code has it.  Take any sequence of runs on a log file,
    [env] among them after the runs [pre] and before the runs [post].
    Whatever fails in the runs, no header is ever written behind a row:
    a file with no header past its first row stays so, and a run that
    finds the file not empty adds no header to it.  A run whose file
    I/O works writes the header if and only if it found the file absent
    or of size zero: it leaves what it found, then the header in that
    case and nothing otherwise, then data rows.  And when the file
    starts as the script can have left it (absent, empty, or the header
    and then data rows), no flush fails in the runs [pre], and the file
    I/O of [env] works, the file after the whole sequence starts with
    the header and holds it exactly once. *)
Theorem header_once (pre post : list run_env) (env : run_env)
    (d : option (list row)) :
  let before := restarts pre d in
  (header_first_only (rows_of d) ->
   forall runs, header_first_only (rows_of (restarts runs d))) /\
  (fresh before = false ->
   headers (rows_of (store_after env before)) = headers (rows_of before)) /\
  (io_ok env = true ->
   exists data,
     Forall is_data_row data /\
     store_after env before =
     Some (rows_of before ++ (if fresh before then [CSV_HEADER] else []) ++ data)) /\
  (kept d -> forallb lossless pre = true -> io_ok env = true ->
   exists rest,
     restarts (pre ++ env :: post) d = Some (CSV_HEADER :: rest) /\
     headers (CSV_HEADER :: rest) = 1).
Proof.
  intros before. split; [ | split; [ | split ] ].
  - intros Hd runs. now apply restarts_header_first.
  - intros Hf.
    destruct (store_after_landed env before) as (landed & -> & Hk & _).
    rewrite headers_app.
    rewrite (headers_data (kept_of_data Hk (session_rows_data env before Hf))).
    lia.
  - apply store_after_ok.
  - intros Hd Hpre Hok.
    pose proof (restarts_kept pre Hpre Hd) as Hb. fold before in Hb.
    destruct (store_after_ok env before Hok) as (data & Hdata & Hafter).
    assert (Hh : exists data', store_after env before = Some (CSV_HEADER :: data') /\
                               Forall is_data_row data').
    { rewrite Hafter. destruct Hb as [Hf | (data0 & Hb & Hdata0) ].
      - rewrite Hf, (fresh_rows before Hf). simpl. eauto.
      - rewrite Hb. simpl. exists (data0 ++ data). split; [reflexivity | ].
        apply Forall_app. auto. }
    destruct Hh as (data' & Hstore & Hdata').
    replace (pre ++ env :: post) with ((pre ++ [env]) ++ post)
      by (rewrite <- app_assoc; reflexivity).
    rewrite !restarts_app. fold before.
    change (restarts [env] before) with (store_after env before).
    rewrite Hstore.
    destruct (restarts_append post (Some (CSV_HEADER :: data'))) as [ [k Hk] Hfile ].
    assert (Hfirst : header_first_only (rows_of (restarts post (Some (CSV_HEADER :: data'))))).
    { apply restarts_header_first. unfold header_first_only. simpl.
      apply headers_data. eapply Forall_impl; [ | exact Hdata' ].
      intros r Hr. now left. }
    specialize (Hfile eq_refl).
    destruct (restarts post (Some (CSV_HEADER :: data'))) as [rows | ];
      [ | discriminate Hfile ].
    simpl in Hk, Hfirst. subst rows. exists (data' ++ k). split; [reflexivity | ].
    unfold header_first_only in Hfirst. simpl in Hfirst.
    unfold headers in *. simpl. now rewrite Hfirst.
Qed.

Lemma header_once_witness :
  (exists data,
      Forall is_data_row data /\
      store_after three_ticks (restarts [cannot_open] None) =
      Some (rows_of (restarts [cannot_open] None) ++
            (if fresh (restarts [cannot_open] None) then [CSV_HEADER] else []) ++
            data)) /\
  (exists rest,
      restarts ([cannot_open] ++ three_ticks :: [one_tick]) None =
      Some (CSV_HEADER :: rest) /\
      headers (CSV_HEADER :: rest) = 1).
Proof.
  destruct (header_once [cannot_open] [one_tick] three_ticks None)
    as (_ & _ & Hrun & Hall).
  split.
  - apply Hrun. reflexivity.
  - apply Hall; [left; reflexivity | reflexivity | reflexivity].
Defined.

Ltac run_stats :=
  cbv beta iota zeta delta
    [get_system_stats try_except_Exception bind ret raise reply emit print
     psutil_cpu_percent psutil_virtual_memory_percent fst snd log
     cpu_percent_ans virtual_memory_ans stats_print_ans].




(** C3, the claim as stated fails, in two ways.  Ctrl+C during the
    one-second measurement of [psutil.cpu_percent] raises
    [KeyboardInterrupt], which [except Exception] does not catch: the
    interrupt reaches the caller.  And when a query fails while standard
    output is closed, the [print] of the handler raises in its turn,
    and that error reaches the caller. *)
Lemma get_system_stats_lets_interrupt_through :
  get_system_stats (ctrl_c_measuring (at_time 12 0 1)) (opened None []) =
  (mkWorld (Some []) (Some []) [CpuPercent 1], Raises KeyboardInterrupt) /\
  get_system_stats
    (mkTick (Fail (Exception "access denied")) (Ok 45.5%float)
       (Fail (Exception "Broken pipe")) (at_time 12 0 1) Buffered
       (Ok tt) (Ok tt) (Ok tt) (Ok tt))
    (opened None []) =
  (mkWorld (Some []) (Some []) [CpuPercent 1], Raises (Exception "Broken pipe")).
Proof. split; reflexivity. Qed.

(** C3, as the code has it.  Whatever the two platform queries answer,
    a value or an error of class [Exception], [get_system_stats] turns
    it into a result as long as its own [print] returns: the pair of
    the two values when both queries answer, and when one raises an
    error, [(None, None)] once the error is printed; what that [print]
    raises, if it raises, is what reaches the caller. *)
Theorem get_system_stats_converts_errors (env : tick_env) (w : world) :
  value_or_error (cpu_percent_ans env) = true ->
  value_or_error (virtual_memory_ans env) = true ->
  exists w',
    (exists c m,
        cpu_percent_ans env = Ok c /\ virtual_memory_ans env = Ok m /\
        get_system_stats env w = (w', Returns (VFloat c, VFloat m)))
    \/ (exists msg,
           (cpu_percent_ans env = Fail (Exception msg) \/
            (exists c, cpu_percent_ans env = Ok c) /\
            virtual_memory_ans env = Fail (Exception msg)) /\
           match stats_print_ans env with
           | Ok _ => get_system_stats env w = (w', Returns (VNone, VNone))
           | Fail e => get_system_stats env w = (w', Raises e)
           end).
Proof.
  destruct env as [c v sp n wr lp wp fp sl]. cbn [cpu_percent_ans virtual_memory_ans
    stats_print_ans value_or_error].
  destruct c as [c | [ | ? | msg ] ]; try discriminate;
    destruct v as [m | [ | ? | msg' ] ]; try discriminate; intros _ _;
    destruct sp as [ [] | e ]; eexists;
    solve [ left; exists c, m; repeat split; reflexivity
          | right; eexists; split; [ | reflexivity ]; eauto ].
Qed.

Lemma get_system_stats_converts_errors_witness :
  value_or_error (cpu_percent_ans (sample_denied (at_time 12 0 7))) = true /\
  value_or_error (virtual_memory_ans (sample_denied (at_time 12 0 7))) = true /\
  exists w',
    (exists c m,
        cpu_percent_ans (sample_denied (at_time 12 0 7)) = Ok c /\
        virtual_memory_ans (sample_denied (at_time 12 0 7)) = Ok m /\
        get_system_stats (sample_denied (at_time 12 0 7)) (opened None []) =
        (w', Returns (VFloat c, VFloat m)))
    \/ (exists msg,
           (cpu_percent_ans (sample_denied (at_time 12 0 7)) = Fail (Exception msg) \/
            (exists c, cpu_percent_ans (sample_denied (at_time 12 0 7)) = Ok c) /\
            virtual_memory_ans (sample_denied (at_time 12 0 7)) = Fail (Exception msg)) /\
           match stats_print_ans (sample_denied (at_time 12 0 7)) with
           | Ok _ =>
               get_system_stats (sample_denied (at_time 12 0 7)) (opened None []) =
               (w', Returns (VNone, VNone))
           | Fail e =>
               get_system_stats (sample_denied (at_time 12 0 7)) (opened None []) =
               (w', Raises e)
           end).
Proof.
  split; [reflexivity | split; [reflexivity | ] ].
  apply (get_system_stats_converts_errors
           (sample_denied (at_time 12 0 7)) (opened None [])); reflexivity.
Defined.








(** C6, range invariant.  When every successful sample of a run is a
    pair of floats in [0, 100] and every value on the file before the
    run is, every value on the file or in the buffer of the handle
    after the run is in [0, 100]. *)
Theorem range_invariant (env : run_env) (d : option (list row)) :
  forallb provider_contract (ticks env) = true ->
  Forall row_in_range (rows_of d) ->
  Forall row_in_range (persisted (fst (main env (start d)))).
Proof.
  intros Hc Hd. apply Forall_forall. intros r Hr.
  destruct (main_landed env d []) as (_ & (new & Hp & Hk) & _).
  unfold start in Hr. rewrite Hp in Hr. apply in_app_or in Hr.
  destruct Hr as [Hr | Hr]; [exact (proj1 (Forall_forall _ _) Hd r Hr) | ].
  destruct (@kept_of_In _ _ r Hk Hr) as (r0 & Hin & Hor).
  assert (H0 : row_in_range r0).
  { destruct (session_rows_in env d r0 Hin) as [ [-> _] | H' ].
    - intros x [Hx | [Hx | [Hx | [] ] ] ]; discriminate.
    - destruct (accepted_from (ticks env) r0 H')
        as (tenv & c & m & Hin' & Hcpu & Hmem & ->).
      pose proof (proj1 (forallb_forall _ _) Hc tenv Hin') as Ht.
      unfold provider_contract in Ht. rewrite Hcpu, Hmem in Ht.
      apply andb_true_iff in Ht. destruct Ht as [Hrc Hrm].
      intros x [Hx | [Hx | [Hx | [] ] ] ]; try discriminate;
        injection Hx as <-; assumption. }
  destruct Hor as [-> | (k & ->) ]; [assumption | ].
  intros x Hx. apply H0. now apply cut_In_float with (k := k).
Qed.

Lemma range_invariant_witness :
  forallb provider_contract (ticks three_ticks) = true /\
  Forall row_in_range (rows_of None) /\
  Forall row_in_range (persisted (fst (main three_ticks (start None)))).
Proof.
  split; [reflexivity | split; [constructor | ] ].
  apply (range_invariant three_ticks None); [reflexivity | constructor].
Defined.

(** C7, the claim as stated fails: the timestamps are readings of the
    local wall clock, which can go back.  On 2026-11-01 daylight saving
    time ends at 02:00 local time; two ticks six seconds apart across
    that moment leave two rows whose timestamps decrease. *)
Lemma timestamps_go_back_with_the_clock :
  store_after
    (run_with
       [sample_ok (at_time 1 59 58) 12.5 45.5;
        ctrl_c_asleep (at_time 1 0 4) 10 50]) None =
  Some [CSV_HEADER;
        [VStr "2026-11-01 01:59:58"; VFloat 12.5; VFloat 45.5];
        [VStr "2026-11-01 01:00:04"; VFloat 10; VFloat 50]] /\
  String.leb "2026-11-01 01:59:58" "2026-11-01 01:00:04" = false.
Proof. split; vm_compute; reflexivity. Qed.

(** C7, as the code has it.  Take the loop on an open handle, the file
    holding [rows] and the buffer [buf].  The rows the file object takes
    from the loop carry, in tick order, the clock readings of the ticks
    that wrote: a sub-sequence of the readings, never reordered.  What
    the file and the buffer hold afterwards is what the file held, then
    these rows in that order, each whole, cut short or lost by a flush
    that failed; all of them, whole, when no flush fails.  When the
    readings of the run are on the calendar and no reading is earlier
    than one before it, the timestamps of the rows are non-decreasing,
    ties allowed. *)
Theorem timestamps_follow_the_clock (envs : list tick_env)
    (rows buf : list row) (tr : list event) :
  let w := mkWorld (Some rows) (Some buf) tr in
  (exists mask new,
      map timestamp (accepted envs) =
      map (fun env => strftime (now env)) (pick mask envs) /\
      persisted (fst (loop envs w)) = rows ++ new /\
      kept_of (buf ++ accepted envs) new) /\
  (forallb (fun env => no_flush_failure (writerow_ans env)) envs = true ->
   persisted (fst (loop envs w)) = rows ++ buf ++ accepted envs) /\
  (forallb (fun env => on_calendar (now env)) envs = true ->
   StronglySorted dt_le (map now envs) ->
   StronglySorted str_le (map timestamp (accepted envs))).
Proof.
  intros w.
  assert (Hopen : handle w = Some buf) by reflexivity.
  assert (Hs : settled rows buf w).
  { exists [], []. simpl. rewrite app_nil_r. repeat split. constructor. }
  split; [ | split ].
  - destruct (accepted_pick envs) as [mask Hmask].
    destruct (loop_spec envs Hopen Hs) as (_ & _ & Hset & _).
    destruct (settled_landed Hset) as (_ & new & Hp & Hk).
    exists mask, new. auto.
  - intros Hc. rewrite (loop_clean envs w Hopen Hc).
    unfold persisted, on_disk, buffered. simpl. now rewrite app_assoc.
  - apply accepted_sorted.
Qed.

Lemma timestamps_follow_the_clock_witness :
  persisted (fst (loop (ticks three_ticks) (mkWorld (Some []) (Some []) []))) =
  [] ++ [] ++ accepted (ticks three_ticks) /\
  StronglySorted str_le (map timestamp (accepted (ticks three_ticks))).
Proof.
  destruct (timestamps_follow_the_clock (ticks three_ticks) [] [] [])
    as (_ & Hclean & Hsorted).
  split.
  - apply Hclean. reflexivity.
  - apply Hsorted; [reflexivity | ].
    repeat constructor; vm_compute; discriminate.
Defined.

(** ** Ticks that are never reached *)










Lemma tick_closed (env : tick_env) (w : world) :
  handle w = None ->
  disk (fst (tick env w)) = disk w /\ handle (fst (tick env w)) = None.
Proof.
  intros H. destruct w as [d h tr]. simpl in H. subst h.
  destruct env as [c v sp n wr lp wp fp sl].
  run_tick. split_matches; split; reflexivity.
Qed.

Lemma In_flush (n : nat) (torn : option nat) (buf : list row) (r : row) :
  In r (flush n torn buf) ->
  In r buf \/ exists k r0, In r0 buf /\ r = cut k r0.
Proof.
  intros H. destruct (@kept_of_In _ _ r (kept_of_flush n torn buf) H) as (r0 & Hin & Hor).
  destruct Hor as [-> | (k & ->) ]; eauto.
Qed.

Lemma In_skipn (A : Type) (n : nat) (l : list A) (x : A) :
  In x (skipn n l) -> In x l.
Proof.
  intros H. rewrite <- (firstn_skipn n l). apply in_or_app. now right.
Qed.

(** Every row the file and the buffer hold after a write was there
    before, or is the row written, or is a row of the buffer cut short
    by the flush. *)
Lemma writerow_rows (a : write_answer) (r r' : row) (w : world) (buf : list row) :
  handle w = Some buf ->
  In r' (persisted (fst (writerow a r w))) ->
  In r' (persisted w) \/ (exists k r0, In r0 buf /\ r' = cut k r0) \/ r' = r.
Proof.
  intros Hopen. destruct w as [d h tr]. simpl in Hopen. subst h.
  unfold writerow, persisted, on_disk, buffered. cbn [handle disk fst rows_of].
  destruct a as [ | n | e n torn | e [ | ] ]; cbn [handle disk fst rows_of];
    rewrite ?in_app_iff; simpl In.
  - intuition.
  - intros [ [H | H] | [H | [H | [] ] ] ]; auto.
    + left. right. eapply In_firstn; eauto.
    + left. right. eapply In_skipn; eauto.
  - intros [ [H | H] | [] ]; auto.
    destruct (In_flush n torn buf r' H) as [H' | H']; auto.
  - intuition.
  - intuition.
Qed.

(** C10, the claim as stated fails in its last part: a row with fields
    missing can reach the file.  Every write of this run returns; the
    flush that [close] makes fails after the header and the start of
    the first field of the data row, and the file ends with a row that
    has neither of its two values. *)
Lemma torn_row_on_failed_close :
  store_after
    (mkRun (Ok tt) (Ok tt) Opens Buffered (Ok tt)
       [ctrl_c_asleep (at_time 12 0 1) 12.5 45.5]
       (CloseFails (Exception "No space left on device") 1 (Some 0))
       (Ok tt) (Ok tt)) None =
  Some [CSV_HEADER; [VCut (VStr "2026-11-01 12:00:01")]].
Proof. vm_compute. reflexivity. Qed.

(** C10, as the code has it.  [get_system_stats] returns the two
    values exactly when both queries answer, and [(None, None)] exactly
    when a query raises an error and the error is printed; it never
    returns one value beside a [None].  A tick hands a row to the file
    only with both values in it.  So every row a run adds to what the
    file held is the header or a timestamp with two floats, no field
    missing, or such a row cut short by a flush that failed. *)
Theorem all_or_nothing (tenv : tick_env) (w : world)
    (env : run_env) (d : option (list row)) :
  (forall c m,
      snd (get_system_stats tenv w) = Returns (VFloat c, VFloat m) <->
      cpu_percent_ans tenv = Ok c /\ virtual_memory_ans tenv = Ok m) /\
  (snd (get_system_stats tenv w) = Returns (VNone, VNone) <->
   returned (stats_print_ans tenv) = true /\
   ((exists msg, cpu_percent_ans tenv = Fail (Exception msg)) \/
    (exists c msg,
        cpu_percent_ans tenv = Ok c /\
        virtual_memory_ans tenv = Fail (Exception msg)))) /\
  match snd (get_system_stats tenv w) with
  | Returns p => p = (VNone, VNone) \/ exists c m, p = (VFloat c, VFloat m)
  | _ => True
  end /\
  (forall r,
      In r (persisted (fst (tick tenv w))) ->
      In r (persisted w) \/
      (exists k r0, In r0 (buffered w) /\ r = cut k r0) \/
      exists c m,
        snd (get_system_stats tenv w) = Returns (VFloat c, VFloat m) /\
        r = [VStr (strftime (now tenv)); VFloat c; VFloat m]) /\
  Forall (fun r => In r (rows_of d) \/
                   whole_or_cut
                     (fun r0 => (r0 = CSV_HEADER \/ is_data_row r0) /\ ~ In VNone r0)
                     r)
         (persisted (fst (main env (start d)))).
Proof.
  split; [ | split; [ | split; [ | split ] ] ].
  - intros c m. destruct tenv as [c' v sp n wr lp wp fp sl]. run_stats.
    split_matches; cbn [fst snd]; split;
      first [ intros H; injection H as -> ->; auto
            | intros H; discriminate H
            | intros [H1 H2]; try discriminate H1; try discriminate H2;
              injection H1 as ->; injection H2 as ->; reflexivity ].
  - destruct tenv as [c' v sp n wr lp wp fp sl]. run_stats.
    cbn [returned].
    split_matches; cbn [fst snd]; split;
      first [ intros H; discriminate H
            | intros _; split;
              [ reflexivity
              | first [ left; eexists; reflexivity
                      | right; do 2 eexists; split; reflexivity ] ]
            | intros [H1 [ [? H2] | (? & ? & H2 & H3) ] ];
              first [ discriminate H1 | discriminate H2 | discriminate H3
                    | reflexivity ] ].
  - destruct tenv as [c' v sp n wr lp wp fp sl]. run_stats.
    split_matches; cbn [fst snd]; solve [ now left | right; eauto | exact I ].
  - intros r Hr. destruct (handle w) as [buf | ] eqn:Hopen.
    + rewrite (tick_eq tenv w Hopen) in Hr.
      change (persisted (fst (log (tick_file tenv w) (tick_events tenv),
                              tick_outcome tenv)))
        with (persisted (tick_file tenv w)) in Hr.
      unfold tick_file, tick_row in Hr.
      assert (Hb : buffered w = buf) by (unfold buffered; now rewrite Hopen).
      rewrite Hb.
      destruct tenv as [c' v sp n wr lp wp fp sl].
      cbn [cpu_percent_ans virtual_memory_ans writerow_ans now] in *.
      destruct c' as [c | e1]; [ | now left ].
      destruct v as [m | e2]; [ | now left ].
      destruct (writerow_rows wr _ r w Hopen Hr) as [H | [H | ->] ]; auto.
      right. right. exists c, m. split; reflexivity.
    + destruct (tick_closed tenv w Hopen) as [Hd Hh].
      left. revert Hr. unfold persisted, on_disk, buffered.
      now rewrite Hd, Hh, Hopen.
  - apply Forall_forall. intros r Hr.
    destruct (main_landed env d []) as (_ & (new & Hp & Hk) & _).
    unfold start in Hr. rewrite Hp in Hr. apply in_app_or in Hr.
    destruct Hr as [Hr | Hr]; [now left | right].
    destruct (@kept_of_In _ _ r Hk Hr) as (r0 & Hin & Hor).
    assert (H0 : (r0 = CSV_HEADER \/ is_data_row r0) /\ ~ In VNone r0).
    { destruct (session_rows_in env d r0 Hin) as [ [-> _] | H' ].
      - split; [now left | ]. simpl. intuition discriminate.
      - pose proof (proj1 (Forall_forall _ _) (accepted_data (ticks env)) r0 H')
          as (ts & c & m & ->).
        split; [right; now exists ts, c, m | ]. simpl. intuition discriminate. }
    destruct Hor as [-> | (k & ->) ]; [now left | right; eauto].
Qed.

(** * Further properties of the script *)

(** ** What the loop leaves in the trace *)

Lemma pace_app (a b : list event) : pace (a ++ b) = pace a ++ pace b.
Proof. apply filter_app. Qed.

Lemma loop_trace (envs : list tick_env) :
  forall (w : world) (buf : list row),
    handle w = Some buf ->
    trace (fst (loop envs w)) = trace w ++ loop_events envs.
Proof.
  induction envs as [ | env rest IH]; intros w buf Hopen.
  - simpl. now rewrite app_nil_r.
  - rewrite (loop_cons env rest w Hopen).
    destruct (tick_handle env w Hopen) as [buf' Hopen'].
    pose proof (tick_trace env w Hopen) as Ht.
    simpl loop_events.
    destruct (tick_outcome env) as [ [] | e | ].
    + rewrite (IH _ _ Hopen'), Ht. now rewrite app_assoc.
    + cbn [fst]. now rewrite app_nil_r.
    + cbn [fst]. now rewrite app_nil_r.
Qed.

Lemma loop_events_pace (envs : list tick_env) :
  pace (loop_events envs) = loop_pace envs.
Proof.
  induction envs as [ | env rest IH]; [reflexivity | ].
  simpl. rewrite pace_app. f_equal.
  destruct (tick_outcome env); [exact IH | reflexivity | reflexivity].
Qed.

(** A tick samples once, and sleeps once if it gets that far; a tick
    that returns has slept. *)
Lemma tick_pace (env : tick_env) :
  pace (tick_events env) = [CpuPercent 1; Slept LOG_INTERVAL_SECONDS] \/
  pace (tick_events env) = [CpuPercent 1] /\ exists e, tick_outcome env = Raises e.
Proof.
  destruct env as [c v sp n wr lp wp fp sl].
  run_tick. split_matches; tidy_trace;
    solve [ left; reflexivity | right; split; [reflexivity | eauto] ].
Qed.

Lemma loop_pace_shape (envs : list tick_env) :
  exists n tail,
    loop_pace envs = beats n ++ tail /\
    n <= List.length envs /\
    (tail = [] \/ tail = [CpuPercent 1]).
Proof.
  induction envs as [ | env rest (n & tail & Hp & Hn & Ht)].
  - exists 0, []. repeat split; auto.
  - simpl loop_pace.
    destruct (tick_pace env) as [-> | [-> [e ->] ] ].
    + destruct (tick_outcome env) as [ [] | e | ].
      * exists (S n), tail. rewrite Hp. repeat split; simpl; auto; lia.
      * exists 1, []. repeat split; simpl; auto; lia.
      * exists 1, []. repeat split; simpl; auto; lia.
    + exists 0, [CpuPercent 1]. repeat split; simpl; auto; lia.
Qed.

Lemma only_errors_tick (env : tick_env) :
  only_errors env = true ->
  tick_outcome env = Returns tt /\
  pace (tick_events env) = [CpuPercent 1; Slept LOG_INTERVAL_SECONDS].
Proof.
  destruct env as [c v sp n wr lp wp fp sl].
  cbv beta iota zeta delta
    [only_errors value_or_error write_or_error returned is_Exception andb
     cpu_percent_ans virtual_memory_ans stats_print_ans writerow_ans
     logged_print_ans write_error_print_ans failed_print_ans sleep_ans].
  run_tick. split_matches; tidy_trace; intros H;
    repeat match goal with u : unit |- _ => destruct u end;
    solve [ discriminate H | split; reflexivity ].
Qed.

Lemma only_errors_loop (envs : list tick_env) :
  forallb only_errors envs = true ->
  loop_outcome envs = Running /\ loop_pace envs = beats (List.length envs).
Proof.
  induction envs as [ | env rest IH]; simpl; [now split | ].
  intros H. apply andb_true_iff in H. destruct H as [He Hrest].
  destruct (only_errors_tick env He) as [-> ->].
  destruct (IH Hrest) as [-> ->]. now split.
Qed.

Lemma header_events_pace (env : run_env) : pace (header_events env) = [].
Proof.
  unfold header_events, header_step, bind, writerow, print, emit, raise, blank,
    opened, log.
  cbn [handle].
  destruct (header_ans env) as [ | n | e n torn | e [ | ] ];
    destruct (header_print_ans env) as [ [] | e' ]; reflexivity.
Qed.

(** ** The log file across runs *)

(** X1, append only.  Over any sequence of runs, whatever fails in
    them, the rows that were on the log file stay where they were,
    unchanged and in order: the file afterwards is the file before
    followed by more rows.  A file that was there is still there. *)
Theorem restarts_only_append (runs : list run_env) (d : option (list row)) :
  (exists k, rows_of (restarts runs d) = rows_of d ++ k) /\
  (if is_file d then is_file (restarts runs d) else true) = true.
Proof.
  destruct (restarts_append runs d) as [Hk Hf]. split; [exact Hk | ].
  destruct (is_file d); auto.
Qed.

(** X2, a file that holds anything never gets a header.  Started on a
    log file that is not empty, whatever it holds, a run leaves that
    content in place and adds only data rows, the last of them maybe
    cut short by a flush that failed: it writes no header, even when
    the file has none. *)
Theorem no_header_into_nonempty_file (env : run_env) (r : row) (rows : list row) :
  exists k,
    store_after env (Some (r :: rows)) = Some (r :: rows ++ k) /\
    Forall (whole_or_cut is_data_row) k /\
    headers (r :: rows ++ k) = headers (r :: rows).
Proof.
  destruct (store_after_landed env (Some (r :: rows))) as (k & Hr & Hk & Hf).
  assert (Hdata : Forall (whole_or_cut is_data_row) k).
  { apply kept_of_data with (rows := session_rows env (Some (r :: rows)));
      [assumption | now apply session_rows_data]. }
  exists k. split; [ | split; [assumption | ] ].
  - specialize (Hf eq_refl).
    destruct (store_after env (Some (r :: rows))) as [after | ];
      [ | discriminate Hf ].
    simpl in Hr. now subst.
  - change (r :: rows ++ k) with ((r :: rows) ++ k).
    rewrite headers_app, (headers_data Hdata). lia.
Qed.

(** X3, one row per tick at most.  A run adds to the log file at most
    one row for each tick of its loop, and one more, the header, when it
    found the file absent or empty. *)
Theorem at_most_one_row_per_tick (env : run_env) (d : option (list row)) :
  List.length (rows_of (store_after env d)) <=
  List.length (rows_of d) + (if fresh d then 1 else 0)
  + List.length (ticks env).
Proof.
  destruct (store_after_landed env d) as (k & -> & Hk & _).
  apply kept_of_length in Hk. rewrite length_app.
  pose proof (accepted_length (ticks env)) as Ha.
  assert (Hs : List.length (session_rows env d) <=
               (if fresh d then 1 else 0) + List.length (ticks env)).
  { unfold session_rows. destruct (fresh d); [ | lia ].
    rewrite length_app.
    destruct (accepts (header_ans env)), (header_returns env); simpl; lia. }
  lia.
Qed.

(** ** How [main] ends *)


(** X5, when the log file cannot be opened.  If [open] raises an error
    (or Ctrl+C arrives in it), [main], with standard output working,
    prints the notice and the closing line and ends with status 0
    without a single provider call.  The log file holds what it held;
    it is not even created, unless the interrupted [open] had created
    it already. *)
Theorem cannot_open_reports_and_exits (env : run_env) (d : option (list row))
    (e : exn) (created : bool) :
  banner_ans env = Ok tt ->
  press_ans env = Ok tt ->
  open_ans env = OpenFails e created ->
  caught e = true ->
  notice_ans env = Ok tt ->
  exit_ans env = Ok tt ->
  main env (start d) =
  (mkWorld (if created then Some (rows_of d) else d) None
     (banner ++ [Printed (stop_notice e); Printed [VStr "Exiting script."]]),
   Returns tt).
Proof.
  intros Hb Hp Ho He Hn Hx. unfold start. rewrite main_unfold, Hb, Hp, Ho.
  now rewrite (@handled_caught env _ e He Hn Hx).
Qed.

Lemma cannot_open_reports_and_exits_witness :
  open_ans cannot_open = OpenFails (Exception "Permission denied") false /\
  caught (Exception "Permission denied") = true /\
  main cannot_open (start None) =
  (mkWorld None None
     (banner ++ [Printed (stop_notice (Exception "Permission denied"));
                 Printed [VStr "Exiting script."]]),
   Returns tt).
Proof.
  split; [reflexivity | split; [reflexivity | ] ].
  apply (@cannot_open_reports_and_exits cannot_open None
           (Exception "Permission denied") false); reflexivity.
Defined.



(** ** The pace of the loop *)

(** X7, errors never stop the loop.  Once the file is open and the
    header step is past, however many ticks go by in which the provider
    or the write raises errors of class [Exception], with every line
    printed and no sleep cut short, [main] is still running, and every
    one of those ticks, failed or not, has sampled once and slept
    [LOG_INTERVAL_SECONDS]. *)
Theorem errors_never_stop_the_loop (env : run_env) (d : option (list row)) :
  reaches_session env = true ->
  (fresh d = true -> header_returns env = true) ->
  forallb only_errors (ticks env) = true ->
  snd (main env (start d)) = Running /\
  pace (trace (fst (main env (start d)))) = beats (List.length (ticks env)).
Proof.
  intros Hreach Hhead Hticks.
  destruct (only_errors_loop (ticks env) Hticks) as [Hrun Hpace].
  unfold start. rewrite (main_reached env d [] Hreach). cbv zeta.
  destruct (session_spec env d ([] ++ banner)) as (Ho & _ & _ & Ht).
  assert (Hs : session_outcome env d = Running /\
               pace (session_events env d) = beats (List.length (ticks env))).
  { unfold session_outcome, session_events.
    destruct (fresh d).
    - pose proof (header_outcome_cases env) as Hc.
      rewrite (Hhead eq_refl) in Hc. rewrite Hc, pace_app, header_events_pace.
      now rewrite loop_events_pace.
    - now rewrite loop_events_pace. }
  destruct Hs as [Hs Hp]. rewrite Hs in Ho.
  destruct (session env (is_file d) (opened d ([] ++ banner))) as [w o].
  cbn [fst snd] in *. subst o. split; [reflexivity | ].
  cbn [fst]. rewrite Ht, !pace_app, Hp. reflexivity.
Qed.

Lemma errors_never_stop_the_loop_witness :
  forallb only_errors
    [sample_denied (at_time 12 0 1); disk_full (at_time 12 0 7) 12.5 45.5] = true /\
  snd (main (run_with [sample_denied (at_time 12 0 1);
                       disk_full (at_time 12 0 7) 12.5 45.5]) (start None)) =
  Running /\
  pace (trace (fst (main (run_with [sample_denied (at_time 12 0 1);
                                    disk_full (at_time 12 0 7) 12.5 45.5])
                          (start None)))) =
  beats (List.length
           (ticks (run_with [sample_denied (at_time 12 0 1);
                             disk_full (at_time 12 0 7) 12.5 45.5]))).
Proof.
  split; [reflexivity | ].
  apply (@errors_never_stop_the_loop
           (run_with [sample_denied (at_time 12 0 1);
                      disk_full (at_time 12 0 7) 12.5 45.5])
           None); reflexivity.
Defined.

(** X8, a sleep between any two samples.  Whatever happens in the
    loop, the samples and sleeps it makes alternate, a one-second sample
    first and then a sleep of [LOG_INTERVAL_SECONDS], tick after tick;
    at most the last sample, the one cut by what stopped the loop, has
    no sleep after it.  The loop never samples twice in a row. *)
Theorem loop_samples_then_sleeps (envs : list tick_env) (w : world)
    (buf : list row) :
  handle w = Some buf ->
  exists evs n tail,
    trace (fst (loop envs w)) = trace w ++ evs /\
    pace evs = beats n ++ tail /\
    n <= List.length envs /\
    (tail = [] \/ tail = [CpuPercent 1]).
Proof.
  intros Hopen.
  destruct (loop_pace_shape envs) as (n & tail & Hs & Hn & Htail).
  exists (loop_events envs), n, tail.
  rewrite loop_events_pace. split; [ | auto ].
  now apply loop_trace with (buf := buf).
Qed.

Lemma loop_samples_then_sleeps_witness :
  handle (opened None []) = Some [] /\
  exists evs n tail,
    trace (fst (loop (ticks three_ticks) (opened None []))) =
    trace (opened None []) ++ evs /\
    pace evs = beats n ++ tail /\
    n <= List.length (ticks three_ticks) /\
    (tail = [] \/ tail = [CpuPercent 1]).
Proof.
  split; [reflexivity | ].
  apply (@loop_samples_then_sleeps (ticks three_ticks) (opened None []) []).
  reflexivity.
Defined.

(** ** The provider *)


(** ** Timestamps *)

(** X11, timestamps order as the clock reads.  The timestamp of a
    calendar date is nineteen characters long; two timestamps compare
    as strings exactly as their clock readings compare as dates, so
    sorting the log by its first column sorts it by local time; and two
    readings give the same timestamp only when they are the same to the
    second. *)
Theorem timestamps_order_as_dates (a b : datetime) :
  on_calendar a = true ->
  on_calendar b = true ->
  String.length (strftime a) = 19 /\
  (str_le (strftime a) (strftime b) <-> dt_le a b) /\
  (strftime a = strftime b <-> a = b).
Proof.
  intros Ha Hb. pose proof (strftime_compare a b Ha Hb) as Hcmp.
  split; [reflexivity | split; split ].
  - unfold str_le, dt_le, String.leb. rewrite Hcmp.
    destruct (dt_compare a b); congruence.
  - unfold str_le, dt_le, String.leb. rewrite Hcmp.
    destruct (dt_compare a b); congruence.
  - intros H. apply dt_compare_eq. rewrite <- Hcmp, H.
    apply string_compare_refl.
  - now intros ->.
Qed.

Lemma timestamps_order_as_dates_witness :
  on_calendar (at_time 1 59 58) = true /\
  on_calendar (at_time 12 0 1) = true /\
  String.length (strftime (at_time 1 59 58)) = 19 /\
  (str_le (strftime (at_time 1 59 58)) (strftime (at_time 12 0 1)) <->
   dt_le (at_time 1 59 58) (at_time 12 0 1)) /\
  (strftime (at_time 1 59 58) = strftime (at_time 12 0 1) <->
   at_time 1 59 58 = at_time 12 0 1).
Proof.
  split; [reflexivity | split; [reflexivity | ] ].
  apply (@timestamps_order_as_dates (at_time 1 59 58) (at_time 12 0 1));
    reflexivity.
Defined.
